(** * CubeFS client: the bypass layer's descriptor / inode registry and
      read-write data path, and the kernel client's socket retry loop.

    The development embeds
      - [src/client/bypass/client.cc]   (close, open-inode registry, truncate,
        stat, read / pread / readv, write / pwrite / writev, lseek), and
      - [src/client_kernel/cfs_socket.c] (cfs_socket_send / cfs_socket_recv)
    as Rocq functions and proves properties of them.

    Conventions.
      - C integers are [Z]; where the code mixes signed and unsigned 64-bit
        operands the conversion is written out with [u64].
      - [std::map] tables are [gmap]s.  [inode_info_t] objects live in a heap
        ([heap], address -> object) because they are shared by pointer between
        the open-file table and the open-inode registry.  [file_t] objects are
        only ever reached through the open-file table and are stored in it by
        value.
      - Everything outside client.cc (the storage SDK, the page cache, libc,
        the connection pool) is an [oracle]: a function from the history of
        calls made so far and the current call to its answer.  Every call is
        appended to the [log].
      - pthread locks are not represented in the sequential functions; the
        section on [record_inode_info] models its two critical sections as
        atomic steps interleaved between threads.
      - Code under [#ifdef _CFS_DEBUG] / [DUP_TO_LOCAL] is not compiled in the
        default build and is left out. *)

From stdpp Require Import gmap list.
From Stdlib Require Import ZArith Lia String.
Local Open Scope Z_scope.

(* ===================================================================== *)
(** * Part I: definitions                                                 *)
(* ===================================================================== *)

(** ** C integer conversions *)

(** Conversion to [size_t] (unsigned 64-bit). *)
Definition u64 (z : Z) : Z := z mod 2 ^ 64.

(** Conversion to [ssize_t] / [off_t] (signed 64-bit). *)
Definition s64 (z : Z) : Z := (z + 2 ^ 63) mod 2 ^ 64 - 2 ^ 63.

Arguments u64 : simpl never.
Arguments s64 : simpl never.

(** ** System constants (Linux) *)

Definition EAGAIN : Z := 11.
Definition O_APPEND : Z := 1024.
Definition SEEK_SET : Z := 0.
Definition SEEK_CUR : Z := 1.
Definition SEEK_END : Z := 2.
Definition S_IFREG : Z := 32768.
Definition UMP_CFS_READ : Z := 0.
Definition UMP_CFS_WRITE : Z := 1.

(** ** cfs_socket.c: bounded retry on EAGAIN *)

Module Socket.

(** [#define CFS_SOCKET_EAGAIN_NUM 100] *)
Definition CFS_SOCKET_EAGAIN_NUM : nat := 100.

(** The outcome of one call: the value returned, how many times the
    underlying iovec operation was attempted, and whether the error branch
    ([cfs_log_error]) was taken. *)
Record outcome := { ret : Z; attempts : nat; logged_error : bool }.

(** The loop
    [for (i=0; i<CFS_SOCKET_EAGAIN_NUM; i++) {
        ret = op(csk, &iov, 1);
        if (ret >= 0 || ret != -EAGAIN) break; }]
    where [op i] is the result of the attempt made in iteration [i].
    [fuel] is the number of iterations left, [i] the loop counter and [r]
    the current value of [ret]. *)
Fixpoint eagain_loop (op : nat -> Z) (fuel : nat) (i : nat) (r : Z) : Z * nat :=
  match fuel with
  | O => (r, i)
  | S fuel' =>
      let r := op i in
      if (0 <=? r) || negb (r =? - EAGAIN) then (r, S i)
      else eagain_loop op fuel' (S i) r
  end.

Definition retry (op : nat -> Z) (uninit : Z) : outcome :=
  let '(r, n) := eagain_loop op CFS_SOCKET_EAGAIN_NUM 0%nat uninit in
  {| ret := r; attempts := n; logged_error := r <? 0 |}.

(** [int cfs_socket_send(struct cfs_socket *csk, void *data, size_t len)];
    [cfs_socket_send_iovec i] is what the [i]-th attempt returns.
    [uninit] is the indeterminate initial value of the local [ret]. *)
Definition cfs_socket_send (cfs_socket_send_iovec : nat -> Z) (uninit : Z) : outcome :=
  retry cfs_socket_send_iovec uninit.

(** [int cfs_socket_recv(struct cfs_socket *csk, void *data, size_t len)] *)
Definition cfs_socket_recv (cfs_socket_recv_iovec : nat -> Z) (uninit : Z) : outcome :=
  retry cfs_socket_recv_iovec uninit.

End Socket.

(** ** client.cc: data model *)

(** Constants of [client.h] / [cache.h], which are not part of the sources
    at hand; they are taken as parameters. *)
Record header := {
  CFS_FD_MASK : Z;
  FILE_TYPE_BIN_LOG : Z;
  FILE_TYPE_RELAY_LOG : Z;
  FILE_CACHE_WRITE_BACK : Z;
  FILE_CACHE_WRITE_THROUGH : Z;
  FILE_CACHE_PRIORITY_HIGH : Z
}.

(** Which of the two LRU caches an inode uses ([inode_info->c]). *)
Inductive lru_cache := no_page_cache | small_page_cache | big_page_cache.

(** [inode_info_t]: one per open inode. *)
Record inode_info_t := {
  inode : Z;
  size : Z;
  cache_flag : Z;
  fd_ref : Z;
  client_id : Z;
  c : lru_cache
}.

(** [file_t]: one per open descriptor; [inode_info] is a heap address. *)
Record file_t := {
  fd : Z;
  file_type : Z;
  flags : Z;
  pos : Z;
  dup_ref : Z;
  inode_info : Z
}.

(** The fields of [struct stat] that the code reads. *)
Record stat := { st_ino : Z; st_size : Z; st_mode : Z }.

(** [cfs_read_req_t]: one per-extent read request. *)
Record cfs_read_req_t := {
  partition_id : Z;
  extent_id : Z;
  extent_offset : Z;
  req_size : Z;
  file_offset : Z;
  dp_host : string;
  dp_port : Z
}.

(** *** Calls to collaborators

    A [request T] is a call whose answer has type [T].  Output buffers are
    answered by the bytes the callee deposits. *)
Inductive request : Type -> Type :=
(* storage SDK *)
| cfs_close (id fd : Z) : request Z
| cfs_truncate (id : Z) (path : string) (length : Z) : request Z
| cfs_ftruncate (id fd length : Z) : request Z
| cfs_stat (id : Z) (path : string) : request (Z * stat)
| cfs_fstat (id fd : Z) : request (Z * stat)
| cfs_flush (id fd : Z) : request unit
| cfs_refresh_eks (id ino : Z) : request Z
| cfs_read_requests (id fd count offset max_count : Z)
    : request (Z * list cfs_read_req_t)
| cfs_pread (id fd count offset : Z) : request (Z * list Z)
| cfs_preadv (id fd : Z) (iov_len : list Z) (offset : Z)
    : request (Z * list (list Z))
| cfs_pwrite (id fd : Z) (buf : list Z) (count offset : Z) : request Z
| cfs_pwritev (id fd : Z) (iov : list (list Z)) (offset : Z) : request Z
| cfs_flush_log : request unit
| cfs_ump (id op : Z) : request unit
(* page cache *)
| alloc_inode_info (ino : Z) : request bool
| read_cache (inode_info offset count : Z) : request (Z * list Z)
| write_cache (inode_info offset count : Z) (buf : list Z) : request Z
| flush_inode (inode_info : Z) : request unit
| flush_inode_range (inode_info offset count : Z) : request unit
| clear_inode_range (inode_info offset count : Z) : request unit
| free_inode_info (inode_info : Z) : request unit
(* direct per-extent read path *)
| new_read_packet (req : cfs_read_req_t) : request bool
| get_conn (host : string) (port : Z) : request Z
| write_sock (sock_fd : Z) (req : cfs_read_req_t) : request Z
| get_read_reply (sock_fd : Z) (req : cfs_read_req_t) : request (Z * list Z)
| put_conn (host : string) (port sock_fd : Z) : request unit
| close_sock (sock_fd : Z) : request unit
(* libc and the local replica *)
| libc_close (fd : Z) : request Z
| libc_truncate (path : string) (length : Z) : request Z
| libc_ftruncate (fd length : Z) : request Z
| libc_stat (ver : Z) (path : string) : request (Z * stat)
| libc_fstat (ver fd : Z) : request (Z * stat)
| libc_lseek (fd offset whence : Z) : request Z
| libc_read (fd count : Z) : request (Z * list Z)
| libc_pread (fd count offset : Z) : request (Z * list Z)
| libc_readv (fd : Z) (iov_len : list Z) : request (Z * list (list Z))
| libc_write (fd : Z) (buf : list Z) (count : Z) : request Z
| libc_pwrite (fd : Z) (buf : list Z) (count offset : Z) : request Z
| libc_writev (fd : Z) (iov : list (list Z)) : request Z
| malloc (n : Z) : request (option (list Z))
| get_cfs_path (pathname : string) : request (option string)
| log_debug (msg : string) : request unit
| find_diff_data (buf buf_local : list Z) (offset n : Z) : request unit.

Inductive event := Ev : forall T, request T -> event.
Arguments Ev {T} r.

(** The collaborators: the answer to a call, given the calls made so far. *)
Definition oracle := forall T, list event -> request T -> T.

(** *** Process state: [g_hook], [g_client_info], [errno], and the call log *)
Record state := {
  g_hook : bool;
  replicate_path : string;
  cfs_client_id : Z;
  dup_fds : gmap Z Z;
  open_files : gmap Z file_t;
  open_inodes : gmap Z Z;
  heap : gmap Z inode_info_t;
  errno : Z;
  log : list event
}.

Definition set_dup_fds (f : gmap Z Z -> gmap Z Z) (s : state) : state :=
  {| g_hook := g_hook s; replicate_path := replicate_path s;
     cfs_client_id := cfs_client_id s; dup_fds := f (dup_fds s);
     open_files := open_files s; open_inodes := open_inodes s;
     heap := heap s; errno := errno s; log := log s |}.

Definition set_open_files (f : gmap Z file_t -> gmap Z file_t) (s : state) : state :=
  {| g_hook := g_hook s; replicate_path := replicate_path s;
     cfs_client_id := cfs_client_id s; dup_fds := dup_fds s;
     open_files := f (open_files s); open_inodes := open_inodes s;
     heap := heap s; errno := errno s; log := log s |}.

Definition set_open_inodes (f : gmap Z Z -> gmap Z Z) (s : state) : state :=
  {| g_hook := g_hook s; replicate_path := replicate_path s;
     cfs_client_id := cfs_client_id s; dup_fds := dup_fds s;
     open_files := open_files s; open_inodes := f (open_inodes s);
     heap := heap s; errno := errno s; log := log s |}.

Definition set_heap (f : gmap Z inode_info_t -> gmap Z inode_info_t) (s : state) : state :=
  {| g_hook := g_hook s; replicate_path := replicate_path s;
     cfs_client_id := cfs_client_id s; dup_fds := dup_fds s;
     open_files := open_files s; open_inodes := open_inodes s;
     heap := f (heap s); errno := errno s; log := log s |}.

Definition set_errno (e : Z) (s : state) : state :=
  {| g_hook := g_hook s; replicate_path := replicate_path s;
     cfs_client_id := cfs_client_id s; dup_fds := dup_fds s;
     open_files := open_files s; open_inodes := open_inodes s;
     heap := heap s; errno := e; log := log s |}.

Definition set_log (f : list event -> list event) (s : state) : state :=
  {| g_hook := g_hook s; replicate_path := replicate_path s;
     cfs_client_id := cfs_client_id s; dup_fds := dup_fds s;
     open_files := open_files s; open_inodes := open_inodes s;
     heap := heap s; errno := errno s; log := f (log s) |}.

(** Field updates of the two structs. *)
Definition set_size (n : Z) (ii : inode_info_t) : inode_info_t :=
  {| inode := inode ii; size := n; cache_flag := cache_flag ii;
     fd_ref := fd_ref ii; client_id := client_id ii; c := c ii |}.

Definition set_fd_ref (n : Z) (ii : inode_info_t) : inode_info_t :=
  {| inode := inode ii; size := size ii; cache_flag := cache_flag ii;
     fd_ref := n; client_id := client_id ii; c := c ii |}.

Definition set_client_id (n : Z) (ii : inode_info_t) : inode_info_t :=
  {| inode := inode ii; size := size ii; cache_flag := cache_flag ii;
     fd_ref := fd_ref ii; client_id := n; c := c ii |}.

Definition set_cache_flag (n : Z) (ii : inode_info_t) : inode_info_t :=
  {| inode := inode ii; size := size ii; cache_flag := n;
     fd_ref := fd_ref ii; client_id := client_id ii; c := c ii |}.

Definition set_c (x : lru_cache) (ii : inode_info_t) : inode_info_t :=
  {| inode := inode ii; size := size ii; cache_flag := cache_flag ii;
     fd_ref := fd_ref ii; client_id := client_id ii; c := x |}.

Definition set_st_size (n : Z) (st : stat) : stat :=
  {| st_ino := st_ino st; st_size := n; st_mode := st_mode st |}.

Definition set_pos (n : Z) (f : file_t) : file_t :=
  {| fd := fd f; file_type := file_type f; flags := flags f; pos := n;
     dup_ref := dup_ref f; inode_info := inode_info f |}.

Definition set_dup_ref (n : Z) (f : file_t) : file_t :=
  {| fd := fd f; file_type := file_type f; flags := flags f; pos := pos f;
     dup_ref := n; inode_info := inode_info f |}.

(** *** The monad of the embedding

    A computation runs on the process state and either returns, terminates
    the process ([exit]), or has no defined behaviour ([Fault]: a
    dereference of a pointer that is not live). *)
Inductive result (A : Type) := Ret (a : A) | Exit (code : Z) | Fault.
Arguments Ret {A} a.
Arguments Exit {A} code.
Arguments Fault {A}.

Definition M (A : Type) : Type := state -> result A * state.

Definition mreturn {A} (a : A) : M A := fun s => (Ret a, s).

Definition mbind {A B} (m : M A) (k : A -> M B) : M B :=
  fun s =>
    match m s with
    | (Ret a, s') => k a s'
    | (Exit code, s') => (Exit code, s')
    | (Fault, s') => (Fault, s')
    end.

Notation "x <- m ;; k" := (mbind m (fun x => k))
  (at level 100, m at next level, right associativity).
Notation "m ;;; k" := (mbind m (fun _ => k))
  (at level 100, right associativity).

Definition get : M state := fun s => (Ret s, s).
Definition modify (f : state -> state) : M unit := fun s => (Ret tt, f s).
Definition exit {A} (code : Z) : M A := fun s => (Exit code, s).
Definition fault {A} : M A := fun s => (Fault, s).
Definition when (b : bool) (m : M unit) : M unit := if b then m else mreturn tt.

(** [strlen(g_client_info.replicate_path) > 0] *)
Definition replicate_on (s : state) : bool := (0 <? String.length (replicate_path s))%nat.

Arguments replicate_on : simpl never.

(** Dereference of an [inode_info_t *]. *)
Definition load (p : Z) : M inode_info_t :=
  fun s => match heap s !! p with
           | Some ii => (Ret ii, s)
           | None => (Fault, s)
           end.

(** Assignment through an [inode_info_t *]. *)
Definition store (p : Z) (ii : inode_info_t) : M unit :=
  fun s => match heap s !! p with
           | Some _ => (Ret tt, set_heap (<[p := ii]>) s)
           | None => (Fault, s)
           end.

(** Assignment through the [file_t *] found under key [k] of the table. *)
Definition store_file (k : Z) (f : file_t) : M unit :=
  modify (set_open_files (<[k := f]>)).

(** [memcmp(a, b, n) != 0] *)
Definition memcmp (a b : list Z) (n : Z) : bool :=
  negb (bool_decide (take (Z.to_nat n) a = take (Z.to_nat n) b)).

(** The buffer [buf] after a callee that was handed the [n] bytes at
    [buf + off] deposited [d] there. *)
Definition deposit (buf : list Z) (off n : Z) (d : list Z) : list Z :=
  let d := take (Z.to_nat n) d in
  take (List.length buf)
       (take (Z.to_nat off) buf ++ d ++ drop (Z.to_nat off + List.length d) buf).

(** [memset(buf + off, 0, n)] *)
Definition memset0 (buf : list Z) (off n : Z) : list Z :=
  deposit buf off n (replicate (Z.to_nat n) 0).

Section Bypass.

Context (h : header) (sdk : oracle).

(** A call to a collaborator: answered by the oracle and logged. *)
Definition call {T} (r : request T) : M T :=
  fun s => (Ret (sdk T (log s) r), set_log (fun l => l ++ [Ev r]) s).

(** *** Helpers of client.h / cache.c *)

(** Modelled from the spec: [fd_in_cfs] (client.h is not in src).
    "is_in_scope(fd) -> bool tests the tag bit." *)
Definition fd_in_cfs (fd : Z) : bool := negb (Z.land fd (CFS_FD_MASK h) =? 0).

(** Modelled from the spec: [get_cfs_fd] (client.h is not in src).
    "resolve(visible_fd) -> sdk_fd strips the reserved high bit used to tag
    distributed fds and follows the dup-alias table when present." *)
Definition get_cfs_fd (fd : Z) : M Z :=
  s <- get ;;
  match dup_fds s !! fd with
  | Some fd' => mreturn fd'
  | None => mreturn (Z.land fd (Z.lnot (CFS_FD_MASK h)))
  end.

(** Modelled from the spec: [get_open_file] (client.h is not in src).
    "get(fd) -> Option<OpenFile>" *)
Definition get_open_file (fd : Z) : M (option file_t) :=
  s <- get ;; mreturn (open_files s !! fd).

(** Modelled from the spec: [get_open_inode] (client.h is not in src).
    "lookup_by_inode(inode) -> Option<InodeInfo>"; the result is the
    address of the registered object. *)
Definition get_open_inode (ino : Z) : M (option Z) :=
  s <- get ;; mreturn (open_inodes s !! ino).

(** Modelled from the spec: [cfs_errno] and [cfs_errno_ssize_t] (client.h is
    not in src).  "each returning a negative platform error code on failure,
    normalized to the calling process's errno convention by the core". *)
Definition cfs_errno (re : Z) : M Z :=
  if re <? 0 then modify (set_errno (- re)) ;;; mreturn (-1)
  else mreturn re.

Definition cfs_errno_ssize_t (re : Z) : M Z := cfs_errno re.

(** Modelled from the spec: [update_inode_size] (cache.c is not in src).
    "update the InodeInfo's cached size to max(old_size, offset +
    bytes_written)"; it returns the resulting size. *)
Definition update_inode_size (p : Z) (n : Z) : M Z :=
  ii <- load p ;;
  let n' := Z.max (size ii) n in
  store p (set_size n' ii) ;;;
  mreturn n'.

(** Modelled from the spec: [new_inode_info] (cache.c is not in src).
    "construct a new entry"; the entry counts the descriptor it is created
    for ([fd_ref] 1).  Allocation can fail, in which case the result is NULL
    ([None]).  The address is one that is not live. *)
Definition new_inode_info (ino : Z) (use_pagecache : bool) : M (option Z) :=
  ok <- call (alloc_inode_info ino) ;;
  if ok then
    s <- get ;;
    let p := fresh (dom (heap s)) in
    modify (set_heap (<[p := {| inode := ino; size := 0; cache_flag := 0;
                               fd_ref := 1; client_id := 0;
                               c := no_page_cache |}]>)) ;;;
    mreturn (Some p)
  else mreturn None.

(** Modelled from the spec: [release_inode_info] (cache.c is not in src):
    the object is freed. *)
Definition release_inode_info (p : Z) : M unit :=
  call (free_inode_info p) ;;;
  modify (set_heap (delete p)).

(** Modelled from the spec: [cat_path] (client.h is not in src): the path
    under the local replicate directory "mirroring the same relative path". *)
Definition cat_path (a b : string) : string := (a ++ b)%string.

(** *** File operations *)

(** [static int close_cfs_fd(int fd)] *)
Definition close_cfs_fd (fd : Z) : M Z :=
  s <- get ;;
  fd <- match dup_fds s !! fd with
        | Some fd' => modify (set_dup_fds (delete fd)) ;;; mreturn fd'
        | None => mreturn (Z.land fd (Z.lnot (CFS_FD_MASK h)))
        end ;;
  match open_files s !! fd with
  | None => mreturn 0
  | Some f =>
      let f := set_dup_ref (dup_ref f - 1) f in
      store_file fd f ;;;
      let release_file := dup_ref f =? 0 in
      if negb release_file then mreturn 0 else
      re <- (if replicate_on s then call (libc_close fd) else mreturn 0) ;;
      if replicate_on s && (re <? 0) then mreturn re else
      let inode_info := inode_info f in
      modify (set_open_files (delete fd)) ;;;
      ii <- load inode_info ;;
      let ii := set_fd_ref (fd_ref ii - 1) ii in
      store inode_info ii ;;;
      let release_inode := fd_ref ii =? 0 in
      when release_inode (modify (set_open_inodes (delete (inode ii)))) ;;;
      when release_inode
        (call (flush_inode inode_info) ;;; release_inode_info inode_info) ;;;
      re <- call (cfs_close (cfs_client_id s) fd) ;;
      cfs_errno re
  end.

(** [int real_close(int fd)] *)
Definition real_close (fd : Z) : M Z :=
  if fd <? 0 then mreturn (-1) else
  s <- get ;;
  let is_cfs := fd_in_cfs fd in
  if g_hook s && is_cfs then close_cfs_fd fd
  else call (libc_close fd).

(** [static inode_info_t *record_inode_info(ino_t inode, int file_type,
    size_t size)], in its three parts. *)

(** The first critical section (under the read lock of [open_inodes_lock]):
    look the inode up and, if it is registered, take a reference. *)
Definition record_inode_info_lookup (ino : Z) : M (option Z) :=
  s <- get ;;
  match open_inodes s !! ino with
  | Some p =>
      ii <- load p ;;
      store p (set_fd_ref (fd_ref ii + 1) ii) ;;;
      mreturn (Some p)
  | None => mreturn None
  end.

(** Outside any lock: build a new entry. *)
Definition record_inode_info_build (ino file_type sz : Z) : M (option Z) :=
  let use_pagecache :=
    (file_type =? FILE_TYPE_RELAY_LOG h) || (file_type =? FILE_TYPE_BIN_LOG h) in
  np <- new_inode_info ino use_pagecache ;;
  match np with
  | None => mreturn None
  | Some p =>
      s <- get ;;
      ii <- load p ;;
      let ii := set_client_id (cfs_client_id s) ii in
      let ii := set_size sz ii in
      let ii :=
        if use_pagecache then
          let ii :=
            if (file_type =? FILE_TYPE_BIN_LOG h) || (file_type =? FILE_TYPE_RELAY_LOG h)
            then set_c big_page_cache ii else set_c small_page_cache ii in
          let ii := set_cache_flag (Z.lor (cache_flag ii) (FILE_CACHE_WRITE_BACK h)) ii in
          if file_type =? FILE_TYPE_RELAY_LOG h
          then set_cache_flag (Z.lor (cache_flag ii) (FILE_CACHE_PRIORITY_HIGH h)) ii
          else ii
        else ii in
      store p ii ;;;
      mreturn (Some p)
  end.

(** The second critical section (under the write lock): look the inode up
    again; if another entry is registered by now, release the entry just
    built and take a reference on the registered one, else register the
    entry just built. *)
Definition record_inode_info_insert (ino p : Z) : M Z :=
  s <- get ;;
  match open_inodes s !! ino with
  | Some q =>
      release_inode_info p ;;;
      ii <- load q ;;
      store q (set_fd_ref (fd_ref ii + 1) ii) ;;;
      mreturn q
  | None =>
      modify (set_open_inodes (<[ino := p]>)) ;;;
      mreturn p
  end.

Definition record_inode_info (ino file_type sz : Z) : M (option Z) :=
  r <- record_inode_info_lookup ino ;;
  match r with
  | Some p => mreturn (Some p)
  | None =>
      b <- record_inode_info_build ino file_type sz ;;
      match b with
      | None => mreturn None
      | Some p => q <- record_inode_info_insert ino p ;; mreturn (Some q)
      end
  end.

(** [int real_truncate(const char *pathname, off_t length)] *)
Definition real_truncate (pathname : string) (length : Z) : M Z :=
  path <- call (get_cfs_path pathname) ;;
  s <- get ;;
  match path with
  | Some path =>
      if g_hook s then
        re <- (if replicate_on s
               then call (libc_truncate (cat_path (replicate_path s) path) length)
               else mreturn 0) ;;
        if replicate_on s && (re <? 0) then mreturn re else
        r <- call (cfs_truncate (cfs_client_id s) path length) ;;
        re <- cfs_errno r ;;
        if re <? 0 then mreturn re else
        x <- call (cfs_stat (cfs_client_id s) path) ;;
        re1 <- cfs_errno (fst x) ;;
        (if re1 =? 0 then
           oi <- get_open_inode (st_ino (snd x)) ;;
           match oi with
           | Some p => ii <- load p ;; store p (set_size (u64 length) ii)
           | None => mreturn tt
           end
         else mreturn tt) ;;;
        mreturn re
      else call (libc_truncate pathname length)
  | None => call (libc_truncate pathname length)
  end.

(** [int real_ftruncate(int fd, off_t length)] *)
Definition real_ftruncate (fd length : Z) : M Z :=
  if fd <? 0 then mreturn (-1) else
  s <- get ;;
  if g_hook s && fd_in_cfs fd then
    fd <- get_cfs_fd fd ;;
    re <- (if replicate_on s then call (libc_ftruncate fd length)
           else mreturn (-1)) ;;
    if replicate_on s && (re <? 0) then mreturn re else
    ofile <- get_open_file fd ;;
    match ofile with
    | None => mreturn re
    | Some f =>
        ii <- load (inode_info f) ;;
        store (inode_info f) (set_size (u64 length) ii) ;;;
        r <- call (cfs_ftruncate (cfs_client_id s) fd length) ;;
        cfs_errno r
    end
  else call (libc_ftruncate fd length).

(** The block shared by every stat variant:
    [if(re == 0) { inode_info_t *inode_info = get_open_inode(statbuf->st_ino);
       if(inode_info != NULL) statbuf->st_size = inode_info->size; }] *)
Definition override_size (re : Z) (statbuf : stat) : M stat :=
  if re =? 0 then
    oi <- get_open_inode (st_ino statbuf) ;;
    match oi with
    | Some p => ii <- load p ;; mreturn (set_st_size (s64 (size ii)) statbuf)
    | None => mreturn statbuf
    end
  else mreturn statbuf.

(** The comparison with the replica made by every stat variant. *)
Definition stat_check (statbuf statbuf_local : stat) : M unit :=
  when (negb (Z.land (st_mode statbuf) S_IFREG =? 0)
        && negb (st_size statbuf =? st_size statbuf_local))
       (call (log_debug "stat: data from CFS and local is not consistent")).

(** [int real_fstat(int ver, int fd, struct stat *statbuf)]; the result is
    the return value and the final content of [*statbuf]. *)
Definition real_fstat (ver fd : Z) : M (Z * stat) :=
  s <- get ;;
  if g_hook s && fd_in_cfs fd then
    fd <- get_cfs_fd fd ;;
    x <- call (cfs_fstat (cfs_client_id s) fd) ;;
    re <- cfs_errno (fst x) ;;
    statbuf <- override_size re (snd x) ;;
    if replicate_on s then
      y <- call (libc_fstat ver fd) ;;
      if fst y <? 0 then mreturn (fst y, statbuf) else
      stat_check statbuf (snd y) ;;;
      mreturn (fst y, statbuf)
    else mreturn (re, statbuf)
  else call (libc_fstat ver fd).

(** [int real_stat(int ver, const char *pathname, struct stat *statbuf)] *)
Definition real_stat (ver : Z) (pathname : string) : M (Z * stat) :=
  path <- call (get_cfs_path pathname) ;;
  s <- get ;;
  match path with
  | Some path =>
      if g_hook s then
        x <- call (cfs_stat (cfs_client_id s) path) ;;
        re <- cfs_errno (fst x) ;;
        statbuf <- override_size re (snd x) ;;
        if replicate_on s then
          y <- call (libc_stat ver (cat_path (replicate_path s) path)) ;;
          if fst y <? 0 then mreturn (fst y, statbuf) else
          stat_check statbuf (snd y) ;;;
          mreturn (fst y, statbuf)
        else mreturn (re, statbuf)
      else call (libc_stat ver pathname)
  | None => call (libc_stat ver pathname)
  end.

(** *** Read & Write *)

(** An element of the [calloc]ed request array that was not filled in. *)
Definition zero_req : cfs_read_req_t :=
  {| partition_id := 0; extent_id := 0; extent_offset := 0; req_size := 0;
     file_offset := 0; dp_host := EmptyString; dp_port := 0 |}.

(** The [for] loop of [cfs_pread_sock]: [n] iterations are left, [req] are
    the array elements from index [i] on.  The result is [read], whether an
    error was met, and the buffer. *)
Fixpoint pread_sock_loop (n : nat) (req : list cfs_read_req_t)
    (buf : list Z) (read : Z) : M (Z * bool * list Z) :=
  match n with
  | O => mreturn (read, false, buf)
  | S n' =>
      match req with
      | [] => fault
      | r :: req' =>
          if req_size r =? 0 then mreturn (read, false, buf)
          else if partition_id r =? 0 then
            pread_sock_loop n' req' (memset0 buf read (req_size r))
                            (read + req_size r)
          else
            p <- call (new_read_packet r) ;;
            if negb p then mreturn (read, true, buf) else
            sock_fd <- call (get_conn (dp_host r) (dp_port r)) ;;
            if sock_fd <? 0 then mreturn (read, true, buf) else
            re <- call (write_sock sock_fd r) ;;
            if re <? 0 then
              call (close_sock sock_fd) ;;; mreturn (read, true, buf)
            else
            y <- call (get_read_reply sock_fd r) ;;
            let re := fst y in
            let buf := deposit buf read (req_size r) (snd y) in
            if re <? 0 then
              call (close_sock sock_fd) ;;; mreturn (read, true, buf)
            else
            call (put_conn (dp_host r) (dp_port r) sock_fd) ;;;
            let read := read + re in
            if negb (re =? req_size r) then mreturn (read, false, buf)
            else pread_sock_loop n' req' buf read
      end
  end.

(** [static ssize_t cfs_pread_sock(int64_t id, int fd, void *buf,
    size_t count, off_t offset, bool hasRefreshed)] *)
Definition cfs_pread_sock (id fd : Z) (buf : list Z) (count offset : Z)
    (hasRefreshed : bool) : M (Z * list Z) :=
  let max_count := 3 in
  x <- call (cfs_read_requests id fd count offset max_count) ;;
  let req_count := fst x in
  let req := take 3 (snd x ++ replicate 3 zero_req) in
  let has_err := req_count <? 0 in
  y <- pread_sock_loop (Z.to_nat req_count) req buf 0 ;;
  let read := fst (fst y) in
  let has_err := has_err || snd (fst y) in
  let buf := snd y in
  if ((u64 read <? count) && negb hasRefreshed) || has_err then
    z <- call (cfs_pread id fd count offset) ;;
    mreturn (fst z, deposit buf 0 count (snd z))
  else mreturn (read, buf).

(** The block that [real_read] (from [bool hasRefreshed = false;] to the
    assignment of [re]) and [real_pread] share word for word: the cache
    lookup, the refresh of the extent keys, and the network read. *)
Definition read_through_cache (f : file_t) (fd : Z) (buf : list Z)
    (count offset : Z) : M (Z * list Z) :=
  s <- get ;;
  ii <- load (inode_info f) ;;
  let sz := size ii in
  x <- call (read_cache (inode_info f) offset count) ;;
  let re_cache := fst x in
  let buf := deposit buf 0 count (snd x) in
  r <- (if (u64 re_cache <? count) && (sz <=? u64 (offset + count))
           && negb (file_type f =? FILE_TYPE_BIN_LOG h)
        then
          call (flush_inode (inode_info f)) ;;;
          call (cfs_flush (cfs_client_id s) fd) ;;;
          n <- call (cfs_refresh_eks (cfs_client_id s) (inode ii)) ;;
          let sz := u64 n in
          let hasRefreshed := 0 <=? sz in
          update_inode_size (inode_info f) sz ;;;
          mreturn (hasRefreshed, sz)
        else mreturn (false, sz)) ;;
  let hasRefreshed := fst r in
  let sz := snd r in
  if (u64 re_cache <? count) && (u64 (offset + re_cache) <? sz) then
    call (flush_inode_range (inode_info f) offset count) ;;;
    call (cfs_flush (cfs_client_id s) fd) ;;;
    let new_count :=
      if sz <? u64 (offset + count) then u64 (sz - offset) else count in
    y <- cfs_pread_sock (cfs_client_id s) fd buf new_count offset hasRefreshed ;;
    re <- cfs_errno_ssize_t (fst y) ;;
    mreturn (re, snd y)
  else mreturn (re_cache, buf).

(** The comparison with the replica that [real_read] and [real_pread]
    share word for word. *)
Definition read_check (buf buf_local : list Z) (offset re re_local : Z) : M unit :=
  let min_res := if re_local <? re then re_local else re in
  if (0 <? re_local) && (0 <? re) && memcmp buf buf_local min_res then
    call (log_debug "read: data from CFS and local is not consistent") ;;;
    call (find_diff_data buf buf_local offset min_res) ;;;
    call cfs_flush_log ;;;
    exit 1
  else mreturn tt.

(** A [malloc]ed block of [n] bytes with the content the allocator left. *)
Definition block (n : Z) (b : list Z) : list Z :=
  take (Z.to_nat n) (b ++ replicate (Z.to_nat n) 0).

(** [real_read] between the test of [g_hook && is_cfs] and the label [log]. *)
Definition real_read_cfs (fd : Z) (buf : list Z) (count : Z) : M (Z * list Z) :=
  s <- get ;;
  fd <- get_cfs_fd fd ;;
  ofile <- get_open_file fd ;;
  match ofile with
  | None => mreturn (-1, buf)
  | Some f =>
      let offset := pos f in
      loc <- (if replicate_on s then
                m <- call (malloc count) ;;
                match m with
                | None => mreturn None
                | Some b =>
                    l <- call (libc_lseek fd offset SEEK_SET) ;;
                    if l <? 0 then mreturn None else
                    y <- call (libc_read fd count) ;;
                    mreturn (Some (fst y, deposit (block count b) 0 count (snd y)))
                end
              else mreturn (Some (0, []))) ;;
      match loc with
      | None => mreturn (-1, buf)
      | Some (re_local, buf_local) =>
          r <- read_through_cache f fd buf count offset ;;
          let re := fst r in
          let buf := snd r in
          when (0 <? re) (store_file fd (set_pos (pos f + re) f)) ;;;
          when (replicate_on s) (read_check buf buf_local offset re re_local) ;;;
          mreturn (re, buf)
      end
  end.

(** [ssize_t real_read(int fd, void *buf, size_t count)]; the result is the
    return value and the final content of [buf]. *)
Definition real_read (fd : Z) (buf : list Z) (count : Z) : M (Z * list Z) :=
  if fd <? 0 then mreturn (-1, buf) else
  s <- get ;;
  if g_hook s && fd_in_cfs fd then
    r <- real_read_cfs fd buf count ;;
    call (cfs_ump (cfs_client_id s) UMP_CFS_READ) ;;;
    mreturn r
  else
    y <- call (libc_read fd count) ;;
    mreturn (fst y, deposit buf 0 count (snd y)).

Definition real_pread_cfs (fd : Z) (buf : list Z) (count offset : Z)
    : M (Z * list Z) :=
  s <- get ;;
  fd <- get_cfs_fd fd ;;
  loc <- (if replicate_on s then
            m <- call (malloc count) ;;
            match m with
            | None => mreturn None
            | Some b =>
                y <- call (libc_pread fd count offset) ;;
                mreturn (Some (fst y, deposit (block count b) 0 count (snd y)))
            end
          else mreturn (Some (0, []))) ;;
  match loc with
  | None => mreturn (-1, buf)
  | Some (re_local, buf_local) =>
      ofile <- get_open_file fd ;;
      match ofile with
      | None => mreturn (-1, buf)
      | Some f =>
          r <- read_through_cache f fd buf count offset ;;
          let re := fst r in
          let buf := snd r in
          when (replicate_on s) (read_check buf buf_local offset re re_local) ;;;
          mreturn (re, buf)
      end
  end.

(** [ssize_t real_pread(int fd, void *buf, size_t count, off_t offset)] *)
Definition real_pread (fd : Z) (buf : list Z) (count offset : Z)
    : M (Z * list Z) :=
  if fd <? 0 then mreturn (-1, buf) else
  s <- get ;;
  if g_hook s && fd_in_cfs fd then
    r <- real_pread_cfs fd buf count offset ;;
    call (cfs_ump (cfs_client_id s) UMP_CFS_READ) ;;;
    mreturn r
  else
    y <- call (libc_pread fd count offset) ;;
    mreturn (fst y, deposit buf 0 count (snd y)).

(** The buffers of an [iovec] array after a callee deposited [ds] into
    them, one deposit per buffer. *)
Fixpoint deposit_iov (iov ds : list (list Z)) : list (list Z) :=
  match iov, ds with
  | b :: iov', d :: ds' =>
      deposit b 0 (Z.of_nat (List.length b)) d :: deposit_iov iov' ds'
  | _, _ => iov
  end.

Definition iov_lens (iov : list (list Z)) : list Z :=
  map (fun b => Z.of_nat (List.length b)) iov.

(** [for(i...) { iov_local[i].iov_base = malloc(iov[i].iov_len); ... }];
    the result of [malloc] is not checked, a NULL base is [None]. *)
Fixpoint malloc_iov (lens : list Z) : M (list (option (list Z))) :=
  match lens with
  | [] => mreturn []
  | n :: lens' =>
      m <- call (malloc n) ;;
      rest <- malloc_iov lens' ;;
      mreturn (option_map (block n) m :: rest)
  end.

Fixpoint deposit_iov_local (iov : list (option (list Z))) (ds : list (list Z))
    : list (option (list Z)) :=
  match iov, ds with
  | b :: iov', d :: ds' =>
      option_map (fun b => deposit b 0 (Z.of_nat (List.length b)) d) b
        :: deposit_iov_local iov' ds'
  | _, _ => iov
  end.

(** The comparison loop of [real_readv]:
    [for(i...) { if(memcmp(iov[i].iov_base, iov_local[i].iov_base,
    iov[i].iov_len)) { ...; exit(1); } free(iov_local[i].iov_base); }] *)
Fixpoint readv_check (offset : Z) (iov : list (list Z))
    (iov_local : list (option (list Z))) : M unit :=
  match iov, iov_local with
  | b :: iov', ob :: loc' =>
      match ob with
      | None => fault
      | Some bl =>
          if memcmp b bl (Z.of_nat (List.length b)) then
            call (log_debug "readv: data from CFS and local is not consistent") ;;;
            call (find_diff_data b bl offset (Z.of_nat (List.length b))) ;;;
            call cfs_flush_log ;;;
            exit 1
          else readv_check offset iov' loc'
      end
  | _, _ => mreturn tt
  end.

(** [real_readv] between the test of [g_hook && is_cfs] and the label [log]. *)
Definition real_readv_cfs (fd : Z) (iov : list (list Z))
    : M (Z * list (list Z)) :=
  s <- get ;;
  fd <- get_cfs_fd fd ;;
  ofile <- get_open_file fd ;;
  match ofile with
  | None => mreturn (-1, iov)
  | Some f =>
      let offset := pos f in
      x <- call (cfs_preadv (cfs_client_id s) fd (iov_lens iov) (pos f)) ;;
      re <- cfs_errno_ssize_t (fst x) ;;
      let iov := deposit_iov iov (snd x) in
      when (0 <? re) (store_file fd (set_pos (pos f + re) f)) ;;;
      if replicate_on s then
        if re <=? 0 then mreturn (re, iov) else
        iov_local <- malloc_iov (iov_lens iov) ;;
        l <- call (libc_lseek fd offset SEEK_SET) ;;
        if l <? 0 then mreturn (re, iov) else
        y <- call (libc_readv fd (iov_lens iov)) ;;
        let re := fst y in
        let iov_local := deposit_iov_local iov_local (snd y) in
        if re <=? 0 then mreturn (re, iov) else
        readv_check offset iov iov_local ;;;
        mreturn (re, iov)
      else mreturn (re, iov)
  end.

(** [ssize_t real_readv(int fd, const struct iovec *iov, int iovcnt)] *)
Definition real_readv (fd : Z) (iov : list (list Z)) : M (Z * list (list Z)) :=
  if fd <? 0 then mreturn (-1, iov) else
  s <- get ;;
  if g_hook s && fd_in_cfs fd then
    r <- real_readv_cfs fd iov ;;
    call (cfs_ump (cfs_client_id s) UMP_CFS_READ) ;;;
    mreturn r
  else
    y <- call (libc_readv fd (iov_lens iov)) ;;
    mreturn (fst y, deposit_iov iov (snd y)).

(** [if(f->flags&O_APPEND) { f->pos = f->inode_info->size; }] *)
Definition seek_to_end_if_append (f : file_t) : M file_t :=
  if negb (Z.land (flags f) O_APPEND =? 0) then
    ii <- load (inode_info f) ;;
    mreturn (set_pos (s64 (size ii)) f)
  else mreturn f.

(** [real_write] between the test of [g_hook && is_cfs] and the label [log]. *)
Definition real_write_cfs (fd : Z) (buf : list Z) (count : Z) : M Z :=
  s <- get ;;
  fd <- get_cfs_fd fd ;;
  ofile <- get_open_file fd ;;
  match ofile with
  | None => mreturn (-1)
  | Some f =>
      f <- seek_to_end_if_append f ;;
      store_file fd f ;;;
      re_cache <- call (write_cache (inode_info f) (pos f) count buf) ;;
      ii <- load (inode_info f) ;;
      re <- (if negb (Z.land (cache_flag ii) (FILE_CACHE_WRITE_THROUGH h) =? 0)
                || (u64 re_cache <? count)
             then
               when (u64 re_cache <? count)
                    (call (clear_inode_range (inode_info f) (pos f) count)) ;;;
               r <- call (cfs_pwrite (cfs_client_id s) fd buf count (pos f)) ;;
               cfs_errno_ssize_t r
             else mreturn re_cache) ;;
      if 0 <? re then
        let f := set_pos (pos f + re) f in
        store_file fd f ;;;
        update_inode_size (inode_info f) (u64 (pos f)) ;;;
        if replicate_on s then
          re_local <- call (libc_write fd buf count) ;;
          if negb (re_local =? re) then mreturn re_local else mreturn re
        else mreturn re
      else mreturn re
  end.

(** [ssize_t real_write(int fd, const void *buf, size_t count)] *)
Definition real_write (fd : Z) (buf : list Z) (count : Z) : M Z :=
  if fd <? 0 then mreturn (-1) else
  s <- get ;;
  if g_hook s && fd_in_cfs fd then
    re <- real_write_cfs fd buf count ;;
    call (cfs_ump (cfs_client_id s) UMP_CFS_WRITE) ;;;
    mreturn re
  else call (libc_write fd buf count).

(** [real_writev] between the test of [g_hook && is_cfs] and the label
    [log]. *)
Definition real_writev_cfs (fd : Z) (iov : list (list Z)) : M Z :=
  s <- get ;;
  fd <- get_cfs_fd fd ;;
  re <- (if replicate_on s then call (libc_writev fd iov) else mreturn (-1)) ;;
  if replicate_on s && (re <? 0) then mreturn re else
  ofile <- get_open_file fd ;;
  match ofile with
  | None => mreturn re
  | Some f =>
      f <- seek_to_end_if_append f ;;
      store_file fd f ;;;
      r <- call (cfs_pwritev (cfs_client_id s) fd iov (pos f)) ;;
      re <- cfs_errno_ssize_t r ;;
      (if 0 <? re then
         let f := set_pos (pos f + re) f in
         store_file fd f ;;;
         update_inode_size (inode_info f) (u64 (pos f)) ;;;
         mreturn tt
       else mreturn tt) ;;;
      mreturn re
  end.

(** [ssize_t real_writev(int fd, const struct iovec *iov, int iovcnt)] *)
Definition real_writev (fd : Z) (iov : list (list Z)) : M Z :=
  if fd <? 0 then mreturn (-1) else
  s <- get ;;
  if g_hook s && fd_in_cfs fd then
    re <- real_writev_cfs fd iov ;;
    call (cfs_ump (cfs_client_id s) UMP_CFS_WRITE) ;;;
    mreturn re
  else call (libc_writev fd iov).

(** [real_pwrite] between the test of [g_hook && is_cfs] and the label
    [log]. *)
Definition real_pwrite_cfs (fd : Z) (buf : list Z) (count offset : Z) : M Z :=
  s <- get ;;
  fd <- get_cfs_fd fd ;;
  re <- (if replicate_on s then call (libc_pwrite fd buf count offset)
         else mreturn (-1)) ;;
  if replicate_on s && (re <? 0) then mreturn re else
  ofile <- get_open_file fd ;;
  match ofile with
  | None => mreturn re
  | Some f =>
      re_cache <- call (write_cache (inode_info f) offset count buf) ;;
      ii <- load (inode_info f) ;;
      re <- (if negb (Z.land (cache_flag ii) (FILE_CACHE_WRITE_THROUGH h) =? 0)
                || (u64 re_cache <? count)
             then
               when (u64 re_cache <? count)
                    (call (clear_inode_range (inode_info f) offset count)) ;;;
               r <- call (cfs_pwrite (cfs_client_id s) fd buf count offset) ;;
               cfs_errno_ssize_t r
             else mreturn re_cache) ;;
      (if 0 <? re then
         update_inode_size (inode_info f) (u64 (offset + re)) ;;; mreturn tt
       else mreturn tt) ;;;
      mreturn re
  end.

(** [ssize_t real_pwrite(int fd, const void *buf, size_t count,
    off_t offset)] *)
Definition real_pwrite (fd : Z) (buf : list Z) (count offset : Z) : M Z :=
  if fd <? 0 then mreturn (-1) else
  s <- get ;;
  if g_hook s && fd_in_cfs fd then
    re <- real_pwrite_cfs fd buf count offset ;;
    call (cfs_ump (cfs_client_id s) UMP_CFS_WRITE) ;;;
    mreturn re
  else call (libc_pwrite fd buf count offset).

(** [off_t real_lseek(int fd, off_t offset, int whence)] *)
Definition real_lseek (fd offset whence : Z) : M Z :=
  if fd <? 0 then mreturn (-1) else
  s <- get ;;
  if g_hook s && fd_in_cfs fd then
    fd <- get_cfs_fd fd ;;
    re <- (if replicate_on s then call (libc_lseek fd offset whence)
           else mreturn (-1)) ;;
    if replicate_on s && (re <? 0) then mreturn re else
    ofile <- get_open_file fd ;;
    match ofile with
    | None => mreturn re
    | Some f =>
        f <- (if whence =? SEEK_SET then mreturn (set_pos offset f)
              else if whence =? SEEK_CUR then mreturn (set_pos (pos f + offset) f)
              else if whence =? SEEK_END then
                ii <- load (inode_info f) ;;
                mreturn (set_pos (s64 (size ii + offset)) f)
              else mreturn f) ;;
        store_file fd f ;;;
        let re_cfs := pos f in
        when (replicate_on s && negb (re_cfs =? re))
             (call (log_debug "lseek: re from CFS and local is not consistent")) ;;;
        mreturn re_cfs
    end
  else call (libc_lseek fd offset whence).

End Bypass.

(** ** Concurrent callers of [record_inode_info]

    A thread inside [record_inode_info] is at one of four points: before
    the first critical section; after a lookup that found nothing, about to
    build its own entry; holding the entry it built, about to enter the
    second critical section; or returned.  The two critical sections are
    atomic because they run under [open_inodes_lock]; the construction in
    between touches the allocator and the new object only, which no other
    thread can reach before it is registered. *)
Inductive thread :=
| Start (ino file_type sz : Z)
| Looked (ino file_type sz : Z)
| Built (ino p : Z)
| Done (ino : Z) (r : option Z).

Definition is_start (t : thread) : bool :=
  match t with Start _ _ _ => true | _ => false end.

Definition is_done (t : thread) : bool :=
  match t with Done _ _ => true | _ => false end.

Section Threads.

Context (h : header) (sdk : oracle).

(** One atomic step of a thread. *)
Definition record_inode_info_step (t : thread) : M thread :=
  match t with
  | Start ino file_type sz =>
      r <- record_inode_info_lookup ino ;;
      match r with
      | Some p => mreturn (Done ino (Some p))
      | None => mreturn (Looked ino file_type sz)
      end
  | Looked ino file_type sz =>
      b <- record_inode_info_build h sdk ino file_type sz ;;
      match b with
      | None => mreturn (Done ino None)
      | Some p => mreturn (Built ino p)
      end
  | Built ino p =>
      q <- record_inode_info_insert sdk ino p ;;
      mreturn (Done ino (Some q))
  | Done ino r => mreturn (Done ino r)
  end.

(** A thread run on its own for [n] steps. *)
Fixpoint run_thread (n : nat) (t : thread) : M thread :=
  match n with
  | O => mreturn t
  | S n => t' <- record_inode_info_step t ;; run_thread n t'
  end.

(** The threads of the process and the state they share: any thread that has
    not returned takes its next step. *)
Inductive step : list thread * state -> list thread * state -> Prop :=
| step_at (i : nat) (t t' : thread) (ts : list thread) (s s' : state) :
    ts !! i = Some t ->
    is_done t = false ->
    record_inode_info_step t s = (Ret t', s') ->
    step (ts, s) (<[i := t']> ts, s').

(** The threads run in the order [sched] (a list of thread indices); [None]
    if the schedule names a thread that does not exist, has returned, or
    whose step does not return. *)
Fixpoint run_schedule (sched : list nat) (ts : list thread) (s : state)
    : option (list thread * state) :=
  match sched with
  | [] => Some (ts, s)
  | i :: sched =>
      match ts !! i with
      | Some t =>
          if is_done t then None else
          match record_inode_info_step t s with
          | (Ret t', s') => run_schedule sched (<[i := t']> ts) s'
          | _ => None
          end
      | None => None
      end
  end.

End Threads.

(** The number of threads in [ts] that returned the entry at [p]. *)
Definition returns (p : Z) (t : thread) : Z :=
  match t with
  | Done _ (Some q) => if q =? p then 1 else 0
  | _ => 0
  end.

Fixpoint returned (p : Z) (ts : list thread) : Z :=
  match ts with
  | [] => 0
  | t :: ts => returns p t + returned p ts
  end.

(** The registry of a state that no thread is working on: every registered
    entry is a live object that carries the inode number it is registered
    under, and every live object is registered. *)
Definition registry_ok (s : state) : Prop :=
  (forall ino p, open_inodes s !! ino = Some p ->
     exists ii, heap s !! p = Some ii /\ inode ii = ino) /\
  (forall p ii, heap s !! p = Some ii -> open_inodes s !! inode ii = Some p).

(** The invariant of the registry while the threads [ts] run on the state
    [s], having started on [s0]. *)
Record registry_inv (s0 : state) (ts : list thread) (s : state) : Prop := {
  (** a registered entry is a live object that carries the inode number it is
      registered under, and its [fd_ref] counts the references it had at the
      start and one for each thread that returned it *)
  inv_registered : forall ino p,
    open_inodes s !! ino = Some p ->
    exists ii, heap s !! p = Some ii /\ inode ii = ino /\
      fd_ref ii = match heap s0 !! p with
                  | Some ii0 => fd_ref ii0
                  | None => 0
                  end + returned p ts;
  (** a live object is the registered entry of its inode number, or the
      entry that a thread has built and not yet offered *)
  inv_live : forall p ii,
    heap s !! p = Some ii ->
    open_inodes s !! inode ii = Some p \/
    exists i, ts !! i = Some (Built (inode ii) p);
  (** an entry that a thread has built is live, is not registered, holds one
      reference, and belongs to that thread only *)
  inv_built : forall i ino p,
    ts !! i = Some (Built ino p) ->
    (exists ii, heap s !! p = Some ii /\ inode ii = ino /\ fd_ref ii = 1) /\
    open_inodes s !! ino <> Some p /\
    heap s0 !! p = None /\
    (forall j ino', ts !! j = Some (Built ino' p) -> j = i);
  (** the entry that a thread returned is the registered entry of the inode
      number it asked for *)
  inv_done : forall i ino p,
    ts !! i = Some (Done ino (Some p)) -> open_inodes s !! ino = Some p;
  (** entries present at the start stay registered *)
  inv_kept : forall p ii0,
    heap s0 !! p = Some ii0 -> open_inodes s !! inode ii0 = Some p
}.

(** ** Vocabulary of the statements *)

(** The state [s] after the calls [evs] were made and nothing else changed. *)
Definition with_log (evs : list event) (s : state) : state :=
  set_log (fun l => l ++ evs) s.

(** Is the event a refresh of the extent keys? *)
Definition is_refresh (e : event) : bool :=
  match e with
  | Ev (cfs_refresh_eks _ _) => true
  | _ => false
  end.

(** Is the event the whole-range read through the SDK? *)
Definition is_cfs_pread (e : event) : bool :=
  match e with
  | Ev (cfs_pread _ _ _ _) => true
  | _ => false
  end.

(** A computation that neither reads nor writes the open-file table: run on
    a state whose table was changed by [g], it gives the same result, and
    the same final state up to that change. *)
Definition ignores_files {A} (g : gmap Z file_t -> gmap Z file_t) (m : M A)
    : Prop :=
  forall s, m (set_open_files g s)
            = (let (r, s1) := m s in (r, set_open_files g s1)).

(** A computation that leaves the open-file table and the dup-alias table as
    it found them. *)
Definition keeps_files {A} (m : M A) : Prop :=
  forall s, open_files (snd (m s)) = open_files s /\
            dup_fds (snd (m s)) = dup_fds s.

(** ** Concrete collaborators and states, used to run the embedding *)

(** The answers a scripted collaborator gives to one call, one field per
    answer type. *)
Record replies := {
  rz : Z;
  rdata : list Z;
  riov : list (list Z);
  rstat : stat;
  rreqs : list cfs_read_req_t;
  rbool : bool;
  rblock : option (list Z);
  rpath : option string
}.

(** A collaborator that answers the [n]-th call of the run (counted from 0,
    over all calls) by [script n]. *)
Definition scripted (script : nat -> replies) : oracle :=
  fun T hist r =>
    let a := script (List.length hist) in
    match r in request T return T with
    | cfs_close _ _ => rz a
    | cfs_truncate _ _ _ => rz a
    | cfs_ftruncate _ _ _ => rz a
    | cfs_stat _ _ => (rz a, rstat a)
    | cfs_fstat _ _ => (rz a, rstat a)
    | cfs_flush _ _ => tt
    | cfs_refresh_eks _ _ => rz a
    | cfs_read_requests _ _ _ _ _ => (rz a, rreqs a)
    | cfs_pread _ _ _ _ => (rz a, rdata a)
    | cfs_preadv _ _ _ _ => (rz a, riov a)
    | cfs_pwrite _ _ _ _ _ => rz a
    | cfs_pwritev _ _ _ _ => rz a
    | cfs_flush_log => tt
    | cfs_ump _ _ => tt
    | alloc_inode_info _ => rbool a
    | read_cache _ _ _ => (rz a, rdata a)
    | write_cache _ _ _ _ => rz a
    | flush_inode _ => tt
    | flush_inode_range _ _ _ => tt
    | clear_inode_range _ _ _ => tt
    | free_inode_info _ => tt
    | new_read_packet _ => rbool a
    | get_conn _ _ => rz a
    | write_sock _ _ => rz a
    | get_read_reply _ _ => (rz a, rdata a)
    | put_conn _ _ _ => tt
    | close_sock _ => tt
    | libc_close _ => rz a
    | libc_truncate _ _ => rz a
    | libc_ftruncate _ _ => rz a
    | libc_stat _ _ => (rz a, rstat a)
    | libc_fstat _ _ => (rz a, rstat a)
    | libc_lseek _ _ _ => rz a
    | libc_read _ _ => (rz a, rdata a)
    | libc_pread _ _ _ => (rz a, rdata a)
    | libc_readv _ _ => (rz a, riov a)
    | libc_write _ _ _ => rz a
    | libc_pwrite _ _ _ _ => rz a
    | libc_writev _ _ => rz a
    | malloc _ => rblock a
    | get_cfs_path _ => rpath a
    | log_debug _ => tt
    | find_diff_data _ _ _ _ => tt
    end.

Definition reply (z : Z) : replies :=
  {| rz := z; rdata := []; riov := []; rstat := {| st_ino := 0; st_size := 0; st_mode := 0 |};
     rreqs := []; rbool := true; rblock := Some []; rpath := Some "f"%string |}.

(** Every call succeeds with 0. *)
Definition quiet : oracle := scripted (fun _ => reply 0).

(** A header with the tag bit at position 30. *)
Definition hdr : header :=
  {| CFS_FD_MASK := 2 ^ 30; FILE_TYPE_BIN_LOG := 1; FILE_TYPE_RELAY_LOG := 2;
     FILE_CACHE_WRITE_BACK := 1; FILE_CACHE_WRITE_THROUGH := 2;
     FILE_CACHE_PRIORITY_HIGH := 4 |}.

(** A process with the hook on, no replica, and the given tables. *)
Definition process (files : gmap Z file_t) (inodes : gmap Z Z)
    (objs : gmap Z inode_info_t) : state :=
  {| g_hook := true; replicate_path := EmptyString; cfs_client_id := 1;
     dup_fds := ∅; open_files := files; open_inodes := inodes; heap := objs;
     errno := 0; log := [] |}.

(** The same process with a replicate path configured. *)
Definition mirrored (files : gmap Z file_t) (inodes : gmap Z Z)
    (objs : gmap Z inode_info_t) : state :=
  {| g_hook := true; replicate_path := "/replica"%string; cfs_client_id := 1;
     dup_fds := ∅; open_files := files; open_inodes := inodes; heap := objs;
     errno := 0; log := [] |}.

(** A regular file: descriptor 5 on inode 77, whose object is at address 900. *)
Definition file5 (fl ps : Z) : file_t :=
  {| fd := 5; file_type := 0; flags := fl; pos := ps; dup_ref := 1;
     inode_info := 900 |}.

Definition ino77 (sz fl : Z) : inode_info_t :=
  {| inode := 77; size := sz; cache_flag := fl; fd_ref := 1; client_id := 1;
     c := no_page_cache |}.

(** A refresh that reports size 5 (the fourth call of the run); every other
    call answers 0 and deposits nothing. *)
Definition script_refresh_5 (n : nat) : replies :=
  if (n =? 3)%nat then reply 5 else reply 0.



(** A truncate that succeeds in the backend while the stat that follows it
    fails with error 5; a later stat succeeds and reports inode 77, size 3. *)
Definition script_stat_fails (n : nat) : replies :=
  match n with
  | 2%nat => reply (-5)
  | 4%nat => {| rz := 0; rdata := []; riov := [];
               rstat := {| st_ino := 77; st_size := 3; st_mode := S_IFREG |};
               rreqs := []; rbool := true; rblock := None;
               rpath := Some "f"%string |}
  | _ => reply 0
  end.

(** A [readv] into one 4-byte buffer: the backend and the replica both
    return the same 2 bytes [1; 2]; the block that [malloc] hands out for the
    replica's copy holds [7; 7; 7; 7]. *)
Definition script_readv_short (n : nat) : replies :=
  match n with
  | 0%nat => {| rz := 2; rdata := []; riov := [[1; 2]]; rstat := rstat (reply 0);
               rreqs := []; rbool := true; rblock := None; rpath := None |}
  | 1%nat => {| rz := 0; rdata := []; riov := []; rstat := rstat (reply 0);
               rreqs := []; rbool := true; rblock := Some [7; 7; 7; 7];
               rpath := None |}
  | 3%nat => {| rz := 2; rdata := []; riov := [[1; 2]]; rstat := rstat (reply 0);
               rreqs := []; rbool := true; rblock := None; rpath := None |}
  | _ => reply 0
  end.

(** A backend in which every call succeeds with 0 and every stat reports
    inode 77 with size 3 (a stale size, say). *)
Definition script_stat77 (n : nat) : replies :=
  {| rz := 0; rdata := []; riov := [];
     rstat := {| st_ino := 77; st_size := 3; st_mode := S_IFREG |};
     rreqs := []; rbool := true; rblock := Some [];
     rpath := Some "f"%string |}.

(* ===================================================================== *)
(** * Part II: theorems                                                   *)
(* ===================================================================== *)

(** ** cfs_socket.c *)

Lemma eagain_loop_spec (op : nat -> Z) (fuel i : nat) (r : Z) :
  forall r' n, Socket.eagain_loop op fuel i r = (r', n) ->
    (i <= n <= i + fuel)%nat /\
    (n = i -> fuel = 0%nat /\ r' = r) /\
    ((i < n)%nat -> r' = op (n - 1)%nat) /\
    (forall j, (i <= j < n - 1)%nat -> op j = - EAGAIN) /\
    (r' <> - EAGAIN \/ n = (i + fuel)%nat).
Proof.
  revert i r. induction fuel as [|fuel IH]; intros i r r' n Hrun; simpl in Hrun.
  - inversion Hrun; subst. split; [lia|]. split; [intros _; split; reflexivity|].
    split; [lia|]. split; [intros j Hj; lia|right; lia].
  - destruct ((0 <=? op i) || negb (op i =? - EAGAIN)) eqn:Hbrk.
    + inversion Hrun; subst. split; [lia|]. split; [lia|].
      split; [intros _; f_equal; lia|]. split; [intros j Hj; lia|].
      left. apply orb_true_iff in Hbrk as [Hge | Hne].
      * apply Z.leb_le in Hge. unfold EAGAIN. lia.
      * apply negb_true_iff, Z.eqb_neq in Hne. exact Hne.
    + apply orb_false_iff in Hbrk as [_ Heq].
      apply negb_false_iff, Z.eqb_eq in Heq.
      destruct (IH _ _ _ _ Hrun) as (Hb & Hz & Hlast & Hall & Hend).
      split; [lia|]. split; [lia|]. split.
      { intros _. destruct (decide (n = S i)) as [Hn|Hn].
        - destruct (Hz Hn) as [_ ->]. subst n. f_equal. lia.
        - apply Hlast. lia. }
      split.
      * intros j Hj. destruct (decide (j = i)) as [->|Hne]; [exact Heq|].
        apply Hall. lia.
      * destruct Hend as [Hend|Hend]; [left; exact Hend|right; lia].
Qed.

Lemma retry_spec (op : nat -> Z) (uninit : Z) :
  let o := Socket.retry op uninit in
  (1 <= Socket.attempts o <= 100)%nat /\
  Socket.ret o = op (Socket.attempts o - 1)%nat /\
  (forall j, (j < Socket.attempts o - 1)%nat -> op j = - EAGAIN) /\
  (Socket.ret o = - EAGAIN -> Socket.attempts o = 100%nat).
Proof.
  unfold Socket.retry.
  destruct (Socket.eagain_loop op Socket.CFS_SOCKET_EAGAIN_NUM 0 uninit)
    as [r n] eqn:Hrun.
  destruct (eagain_loop_spec _ _ _ _ _ _ Hrun) as (Hb & Hz & Hlast & Hall & Hend).
  unfold Socket.CFS_SOCKET_EAGAIN_NUM in *. simpl.
  assert (n <> 0%nat) as Hn.
  { intros ->. destruct Hz as [Hz _]; [reflexivity|discriminate]. }
  split; [lia|]. split; [apply Hlast; lia|].
  split; [intros j Hj; apply Hall; lia|].
  intros Hr. destruct Hend as [Hend|Hend]; [contradiction|lia].
Qed.

(** C9.  [cfs_socket_send] and [cfs_socket_recv] make at least one and at
    most 100 attempts, whatever the socket answers; every attempt before
    the last one failed with EAGAIN and was followed at once by the next
    attempt; the value returned is the result of the last attempt; and
    that value is EAGAIN only if all 100 attempts were used up. *)
Theorem socket_retry_bounded (send_iovec recv_iovec : nat -> Z) (u : Z) :
  let s := Socket.cfs_socket_send send_iovec u in
  let r := Socket.cfs_socket_recv recv_iovec u in
  ((1 <= Socket.attempts s <= 100)%nat /\
   Socket.ret s = send_iovec (Socket.attempts s - 1)%nat /\
   (forall j, (j < Socket.attempts s - 1)%nat -> send_iovec j = - EAGAIN) /\
   (Socket.ret s = - EAGAIN -> Socket.attempts s = 100%nat)) /\
  ((1 <= Socket.attempts r <= 100)%nat /\
   Socket.ret r = recv_iovec (Socket.attempts r - 1)%nat /\
   (forall j, (j < Socket.attempts r - 1)%nat -> recv_iovec j = - EAGAIN) /\
   (Socket.ret r = - EAGAIN -> Socket.attempts r = 100%nat)).
Proof.
  split; [apply (retry_spec send_iovec u) | apply (retry_spec recv_iovec u)].
Qed.

(** ** close *)

Ltac unfold_monad :=
  unfold mbind, mreturn, get, modify, when, store_file, load, store, call,
    exit, fault in *.

Local Arguments Z.land : simpl never.

Lemma u64_small (z : Z) : 0 <= z < 2 ^ 64 -> u64 z = z.
Proof. intros H. unfold u64. apply Z.mod_small. exact H. Qed.

Lemma s64_small (z : Z) : - 2 ^ 63 <= z < 2 ^ 63 -> s64 z = z.
Proof.
  intros H. unfold s64. rewrite Z.mod_small; lia.
Qed.

Lemma get_cfs_fd_inv (h : header) (s s' : state) (fd k : Z) :
  get_cfs_fd h fd s = (Ret k, s') ->
  s' = s /\
  k = match dup_fds s !! fd with
      | Some fd' => fd'
      | None => Z.land fd (Z.lnot (CFS_FD_MASK h))
      end.
Proof.
  unfold get_cfs_fd, mbind, get, mreturn.
  destruct (dup_fds s !! fd); intros [= <- <-]; split; reflexivity.
Qed.

(** C10.  Closing a tagged descriptor that resolves (through the dup-alias
    table) to a descriptor with no entry in the open-file table returns 0;
    the open-file table, the registry and the inode objects are unchanged,
    [errno] is not set and no call (in particular no backend close) is
    made. *)
Theorem close_unknown_fd (h : header) (sdk : oracle) (s : state) (fd k : Z) :
  g_hook s = true -> 0 <= fd -> fd_in_cfs h fd = true ->
  get_cfs_fd h fd s = (Ret k, s) ->
  open_files s !! k = None ->
  exists s', real_close h sdk fd s = (Ret 0, s') /\
    open_files s' = open_files s /\ open_inodes s' = open_inodes s /\
    heap s' = heap s /\ errno s' = errno s /\ log s' = log s.
Proof.
  intros Hhook Hfd Hcfs Hres Hnone.
  apply get_cfs_fd_inv in Hres as [_ Hk].
  unfold real_close. destruct (fd <? 0) eqn:Hneg; [apply Z.ltb_lt in Hneg; lia|].
  unfold mbind at 1, get at 1. rewrite Hhook, Hcfs. simpl.
  unfold close_cfs_fd. unfold_monad.
  destruct (dup_fds s !! fd) as [fd'|] eqn:Hdup; cbn; subst k; rewrite Hnone;
    eexists; (split; [reflexivity|]); repeat split; reflexivity.
Qed.

Lemma close_unknown_fd_witness :
  let s := process ∅ ∅ ∅ in
  exists s', real_close hdr quiet (2 ^ 30 + 5) s = (Ret 0, s') /\
    open_files s' = open_files s /\ open_inodes s' = open_inodes s /\
    heap s' = heap s /\ errno s' = errno s /\ log s' = log s.
Proof.
  apply (close_unknown_fd hdr quiet (process ∅ ∅ ∅) (2 ^ 30 + 5) 5);
    [reflexivity | lia | reflexivity | reflexivity | reflexivity].
Defined.

(** C3.  [close_cfs_fd] on a descriptor that resolves to the open file [f]
    always decrements [f]'s dup-reference.  If the count does not reach
    zero, nothing else happens: the entry stays, the registry and the inode
    objects are untouched and no call is made.  If it reaches zero (and, in
    replicate mode, the local close succeeded), the entry is removed, the
    owning inode's fd-reference is decremented and the backend close of the
    descriptor is the last call made.  The inode leaves the registry, is
    flushed and then freed exactly when its fd-reference reached zero;
    otherwise the registry is unchanged and no flush or free is made. *)
Theorem close_refcounting (h : header) (sdk : oracle) (s : state)
    (fd k : Z) (f : file_t) (ii : inode_info_t) :
  get_cfs_fd h fd s = (Ret k, s) ->
  open_files s !! k = Some f ->
  heap s !! inode_info f = Some ii ->
  (replicate_on s = true -> 0 <= sdk Z (log s) (libc_close k)) ->
  let p := inode_info f in
  let local := if replicate_on s then [Ev (libc_close k)] else [] in
  exists r s' evs,
    close_cfs_fd h sdk fd s = (Ret r, s') /\ log s' = log s ++ evs /\
    (dup_ref f - 1 <> 0 ->
       r = 0 /\
       open_files s' = <[k := set_dup_ref (dup_ref f - 1) f]> (open_files s) /\
       open_inodes s' = open_inodes s /\ heap s' = heap s /\ evs = []) /\
    (dup_ref f - 1 = 0 ->
       open_files s' = delete k (open_files s) /\
       (fd_ref ii - 1 <> 0 ->
          heap s' = <[p := set_fd_ref (fd_ref ii - 1) ii]> (heap s) /\
          open_inodes s' = open_inodes s /\
          evs = local ++ [Ev (cfs_close (cfs_client_id s) k)]) /\
       (fd_ref ii - 1 = 0 ->
          heap s' = delete p (heap s) /\
          open_inodes s' = delete (inode ii) (open_inodes s) /\
          evs = local ++ [Ev (flush_inode p); Ev (free_inode_info p);
                          Ev (cfs_close (cfs_client_id s) k)])).
Proof.
  intros Hres Hf Hii Hlocal p local.
  apply get_cfs_fd_inv in Hres as [_ Hk].
  unfold close_cfs_fd, release_inode_info, cfs_errno. unfold_monad.
  destruct (dup_fds s !! fd) as [fd'|] eqn:Hdup; subst k; cbn; rewrite Hf; cbn.
  all: destruct (dup_ref f - 1 =? 0) eqn:Hz; cbn.
  all: try (apply Z.eqb_neq in Hz; eexists _, _, []; split; [reflexivity|];
            split; [cbn; rewrite app_nil_r; reflexivity|];
            split; [intros _; repeat split; reflexivity | intros ?; lia]).
  all: apply Z.eqb_eq in Hz.
  all: destruct (replicate_on s) eqn:Hrep; cbn.
  all: try match goal with
       | |- context [?o Z ?l (libc_close ?b) <? 0] =>
           destruct (o Z l (libc_close b) <? 0) eqn:Hlc;
           [apply Z.ltb_lt in Hlc; specialize (Hlocal eq_refl); lia|]
       end.
  all: cbn; rewrite Hii; cbn; rewrite Hii; cbn.
  all: destruct (Z.eqb_spec (fd_ref ii - 1) 0) as [Hr|Hr]; cbn.
  all: match goal with
       | |- context [?o Z ?l (cfs_close ?a ?b) <? 0] =>
           destruct (o Z l (cfs_close a b) <? 0)
       end; cbn.
  all: eexists _, _, _; split; [reflexivity|]; cbn.
  all: rewrite <- ?app_assoc, ?delete_insert_eq; cbn.
  all: split; [reflexivity|].
  all: split; [intros ?; lia|]; intros _.
  all: split; [reflexivity|].
  all: split; intros ?; try lia.
  all: repeat split; try reflexivity.
Qed.

Lemma close_refcounting_witness :
  let s := process {[5 := file5 0 0]} {[77 := 900]} {[900 := ino77 0 0]} in
  get_cfs_fd hdr (2 ^ 30 + 5) s = (Ret 5, s) /\
  open_files s !! 5 = Some (file5 0 0) /\
  exists r s', close_cfs_fd hdr quiet (2 ^ 30 + 5) s = (Ret r, s') /\
    open_files s' = delete 5 (open_files s).
Proof.
  split; [reflexivity|]. split; [reflexivity|].
  destruct (close_refcounting hdr quiet
              (process {[5 := file5 0 0]} {[77 := 900]} {[900 := ino77 0 0]})
              (2 ^ 30 + 5) 5 (file5 0 0) (ino77 0 0))
    as (r & s' & evs & Hrun & _ & _ & Hzero);
    [reflexivity | reflexivity | reflexivity | discriminate |].
  exists r, s'. split; [exact Hrun|]. apply Hzero. reflexivity.
Defined.

(** ** write, pwrite, writev, lseek *)

Section OpenDescriptor.

(** A process with the hook on and a tagged descriptor [fd] that resolves to
    the open file [f] under key [k], whose inode object is [ii]. *)
Context (h : header) (sdk : oracle) (s : state) (fd k : Z) (f : file_t)
  (ii : inode_info_t).
Hypothesis Hhook : g_hook s = true.
Hypothesis Hfd : 0 <= fd.
Hypothesis Hcfs : fd_in_cfs h fd = true.
Hypothesis Hres : get_cfs_fd h fd s = (Ret k, s).
Hypothesis Hf : open_files s !! k = Some f.
Hypothesis Hii : heap s !! inode_info f = Some ii.

Lemma write_spec (buf : list Z) (count : Z) :
  let p := inode_info f in
  let id := cfs_client_id s in
  let offset :=
    if negb (Z.land (flags f) O_APPEND =? 0) then s64 (size ii) else pos f in
  let offer := Ev (write_cache p offset count buf) in
  let re_cache := sdk Z (log s) (write_cache p offset count buf) in
  0 <= re_cache < 2 ^ 64 ->
  let through :=
    negb (Z.land (cache_flag ii) (FILE_CACHE_WRITE_THROUGH h) =? 0)
    || (re_cache <? count) in
  let clear :=
    if re_cache <? count then [Ev (clear_inode_range p offset count)] else [] in
  let rb := sdk Z (log s ++ offer :: clear) (cfs_pwrite id k buf count offset) in
  let n := if through then (if rb <? 0 then -1 else rb) else re_cache in
  let mirror :=
    if (0 <? n) && replicate_on s then [Ev (libc_write k buf count)] else [] in
  exists r s' post,
    real_write h sdk fd buf count s = (Ret r, s') /\
    log s' = log s ++ offer :: post /\
    (replicate_on s = false -> r = n) /\
    (through = true ->
       post = clear ++ Ev (cfs_pwrite id k buf count offset)
                :: mirror ++ [Ev (cfs_ump id UMP_CFS_WRITE)]) /\
    (through = false -> post = mirror ++ [Ev (cfs_ump id UMP_CFS_WRITE)]) /\
    (0 < n ->
       heap s' = <[p := set_size (Z.max (size ii) (u64 (offset + n))) ii]> (heap s) /\
       open_files s' !! k = Some (set_pos (offset + n) f)) /\
    (n <= 0 -> heap s' = heap s).
Proof.
  intros p id offset offer re_cache Hrc through clear rb n mirror.
  destruct (get_cfs_fd_inv _ _ _ _ _ Hres) as [_ Hk].
  unfold real_write. destruct (fd <? 0) eqn:Hneg; [apply Z.ltb_lt in Hneg; lia|].
  unfold real_write_cfs, seek_to_end_if_append, get_cfs_fd, get_open_file,
    update_inode_size, cfs_errno_ssize_t, cfs_errno. unfold_monad.
  rewrite Hhook, Hcfs. cbn [andb].
  apply u64_small in Hrc. subst mirror n rb through clear re_cache offer offset p id.
  destruct (dup_fds s !! fd) as [fd'|] eqn:Hdup; subst k.
  all: cbn; rewrite Hf; cbn.
  all: destruct (Z.land (flags f) O_APPEND =? 0) eqn:Happ; cbn in *.
  all: rewrite ?Hii; cbn; rewrite ?Hii; cbn.
  all: rewrite ?Hrc.
  all: match goal with
       | |- context [?o Z ?l (write_cache ?a ?b ?c ?d) <? ?n] =>
           destruct (o Z l (write_cache a b c d) <? n) eqn:Hshort
       end.
  all: match goal with
       | |- context [Z.land ?a ?b =? 0] =>
           destruct (Z.land a b =? 0) eqn:Hwt; cbn
       end.
  all: rewrite <- ?app_assoc; cbn [app].
  all: try match goal with
       | |- context [?o Z ?l (cfs_pwrite ?a ?b ?c ?d ?e) <? 0] =>
           destruct (o Z l (cfs_pwrite a b c d e) <? 0) eqn:Hpw; cbn
       end.
  all: try match goal with
       | |- context [0 <? ?o Z ?l ?r] =>
           destruct (Z.ltb_spec 0 (o Z l r)) as [Hpos|Hpos]; cbn
       end.
  all: repeat (rewrite ?Hii; cbn).
  all: destruct (replicate_on s) eqn:Hrep; cbn.
  all: try match goal with
       | |- context [?o Z ?l (libc_write ?a ?b ?c) =? ?n] =>
           destruct (o Z l (libc_write a b c) =? n) eqn:Hlw; cbn
       end.
  all: eexists _, _, _; (split; [reflexivity|]); cbn;
       rewrite <- ?app_assoc in *; cbn [app] in *.
  all: split; [reflexivity|].
  all: split; [intros ?; try discriminate; reflexivity|].
  all: split; [intros ?; try discriminate; reflexivity|].
  all: split; [intros ?; try discriminate; reflexivity|].
  all: split; intros ?; try lia; try reflexivity.
  all: split; [reflexivity | apply lookup_insert_eq].
Qed.

Lemma pwrite_spec (buf : list Z) (count offset : Z) :
  (replicate_on s = true -> 0 <= sdk Z (log s) (libc_pwrite k buf count offset)) ->
  let p := inode_info f in
  let id := cfs_client_id s in
  let pre := if replicate_on s then [Ev (libc_pwrite k buf count offset)] else [] in
  let re_cache := sdk Z (log s ++ pre) (write_cache p offset count buf) in
  0 <= re_cache < 2 ^ 64 ->
  let through :=
    negb (Z.land (cache_flag ii) (FILE_CACHE_WRITE_THROUGH h) =? 0)
    || (re_cache <? count) in
  let clear :=
    if re_cache <? count then [Ev (clear_inode_range p offset count)] else [] in
  exists n s' post,
    real_pwrite h sdk fd buf count offset s = (Ret n, s') /\
    log s' = log s ++ pre ++ Ev (write_cache p offset count buf) :: post /\
    (through = true ->
       post = clear ++ [Ev (cfs_pwrite id k buf count offset);
                        Ev (cfs_ump id UMP_CFS_WRITE)]) /\
    (through = false ->
       n = re_cache /\ post = [Ev (cfs_ump id UMP_CFS_WRITE)]) /\
    (0 < n ->
       heap s' = <[p := set_size (Z.max (size ii) (u64 (offset + n))) ii]> (heap s)) /\
    (n <= 0 -> heap s' = heap s).
Proof.
  intros Hlocal p id pre re_cache Hrc through clear.
  destruct (get_cfs_fd_inv _ _ _ _ _ Hres) as [_ Hk].
  unfold real_pwrite. destruct (fd <? 0) eqn:Hneg; [apply Z.ltb_lt in Hneg; lia|].
  unfold real_pwrite_cfs, get_cfs_fd, get_open_file, update_inode_size,
    cfs_errno_ssize_t, cfs_errno. unfold_monad.
  rewrite Hhook, Hcfs. cbn [andb].
  apply u64_small in Hrc. subst through clear re_cache pre p id.
  destruct (dup_fds s !! fd) as [fd'|] eqn:Hdup; subst k.
  all: destruct (replicate_on s) eqn:Hrep; cbn; rewrite ?app_nil_r in *.
  all: try match goal with
       | |- context [?o Z ?l (libc_pwrite ?a ?b ?c ?d) <? 0] =>
           destruct (o Z l (libc_pwrite a b c d) <? 0) eqn:Hlc;
           [apply Z.ltb_lt in Hlc; specialize (Hlocal eq_refl); lia|]
       end.
  all: cbn; rewrite Hf; cbn; rewrite Hii; cbn.
  all: rewrite ?Hrc.
  all: match goal with
       | |- context [?o Z ?l (write_cache ?a ?b ?c ?d) <? ?n] =>
           destruct (o Z l (write_cache a b c d) <? n) eqn:Hshort
       end.
  all: match goal with
       | |- context [Z.land ?a ?b =? 0] =>
           destruct (Z.land a b =? 0) eqn:Hwt; cbn
       end.
  all: try match goal with
       | |- context [?o Z ?l (cfs_pwrite ?a ?b ?c ?d ?e) <? 0] =>
           destruct (o Z l (cfs_pwrite a b c d e) <? 0) eqn:Hpw; cbn
       end.
  all: try match goal with
       | |- context [0 <? ?o Z ?l ?r] =>
           destruct (Z.ltb_spec 0 (o Z l r)) as [Hpos|Hpos]; cbn
       end.
  all: repeat (rewrite ?Hii; cbn).
  all: eexists _, _, _; (split; [reflexivity|]); cbn; rewrite <- ?app_assoc in *; cbn [app] in *.
  all: split; [reflexivity|].
  all: split; [intros ?; try discriminate; reflexivity|].
  all: split; [intros ?; try discriminate; split; reflexivity|].
  all: split; intros ?; try lia; try reflexivity.
Qed.

Lemma writev_spec (iov : list (list Z)) :
  (replicate_on s = true -> 0 <= sdk Z (log s) (libc_writev k iov)) ->
  let p := inode_info f in
  let id := cfs_client_id s in
  let offset :=
    if negb (Z.land (flags f) O_APPEND =? 0) then s64 (size ii) else pos f in
  let pre := if replicate_on s then [Ev (libc_writev k iov)] else [] in
  let rb := sdk Z (log s ++ pre) (cfs_pwritev id k iov offset) in
  let n := if rb <? 0 then -1 else rb in
  exists s',
    real_writev h sdk fd iov s = (Ret n, s') /\
    log s' = log s ++ pre ++ [Ev (cfs_pwritev id k iov offset);
                              Ev (cfs_ump id UMP_CFS_WRITE)] /\
    (0 < n ->
       heap s' = <[p := set_size (Z.max (size ii) (u64 (offset + n))) ii]> (heap s) /\
       open_files s' !! k = Some (set_pos (offset + n) f)) /\
    (n <= 0 -> heap s' = heap s).
Proof.
  intros Hlocal p id offset pre rb n.
  destruct (get_cfs_fd_inv _ _ _ _ _ Hres) as [_ Hk].
  unfold real_writev. destruct (fd <? 0) eqn:Hneg; [apply Z.ltb_lt in Hneg; lia|].
  unfold real_writev_cfs, seek_to_end_if_append, get_cfs_fd, get_open_file,
    update_inode_size, cfs_errno_ssize_t, cfs_errno. unfold_monad.
  rewrite Hhook, Hcfs. cbn [andb].
  subst n rb pre offset p id.
  destruct (dup_fds s !! fd) as [fd'|] eqn:Hdup; subst k.
  all: destruct (replicate_on s) eqn:Hrep; cbn; rewrite ?app_nil_r in *.
  all: try match goal with
       | |- context [?o Z ?l (libc_writev ?a ?b) <? 0] =>
           destruct (o Z l (libc_writev a b) <? 0) eqn:Hlc;
           [apply Z.ltb_lt in Hlc; specialize (Hlocal eq_refl); lia|]
       end.
  all: cbn; rewrite Hf; cbn.
  all: destruct (Z.land (flags f) O_APPEND =? 0) eqn:Happ; cbn in *.
  all: rewrite ?Hii; cbn; rewrite ?Hii; cbn.
  all: match goal with
       | |- context [?o Z ?l (cfs_pwritev ?a ?b ?c ?d) <? 0] =>
           destruct (Z.ltb_spec (o Z l (cfs_pwritev a b c d)) 0) as [Hpw|Hpw]; cbn
       end.
  all: try match goal with
       | |- context [0 <? ?o Z ?l ?r] =>
           destruct (Z.ltb_spec 0 (o Z l r)) as [Hpos|Hpos]; cbn
       end.
  all: repeat (rewrite ?Hii; cbn).
  all: eexists; (split; [reflexivity|]); cbn;
       rewrite <- ?app_assoc in *; cbn [app] in *.
  all: split; [reflexivity|].
  all: split; intros ?; try lia; try reflexivity.
  all: split; [reflexivity | apply lookup_insert_eq].
Qed.

(** [real_lseek] returns, and changes nothing but the cursor of [f] (and the
    log). *)
Lemma lseek_spec (offset whence : Z) :
  exists r s1 f1 evs,
    real_lseek h sdk fd offset whence s = (Ret r, s1) /\
    g_hook s1 = g_hook s /\ replicate_path s1 = replicate_path s /\
    cfs_client_id s1 = cfs_client_id s /\ dup_fds s1 = dup_fds s /\
    heap s1 = heap s /\ log s1 = log s ++ evs /\
    open_files s1 !! k = Some f1 /\
    flags f1 = flags f /\ inode_info f1 = inode_info f.
Proof.
  destruct (get_cfs_fd_inv _ _ _ _ _ Hres) as [_ Hk].
  unfold real_lseek. destruct (fd <? 0) eqn:Hneg; [apply Z.ltb_lt in Hneg; lia|].
  unfold get_cfs_fd, get_open_file. unfold_monad.
  rewrite Hhook, Hcfs. cbn [andb].
  destruct (dup_fds s !! fd) as [fd'|] eqn:Hdup; subst k.
  all: destruct (replicate_on s) eqn:Hrep; cbn.
  all: try match goal with
       | |- context [?o Z ?l (libc_lseek ?a ?b ?c) <? 0] =>
           destruct (o Z l (libc_lseek a b c) <? 0) eqn:Hlc; cbn
       end.
  all: rewrite ?Hf; cbn.
  all: try (destruct (whence =? SEEK_SET); [|destruct (whence =? SEEK_CUR);
            [|destruct (whence =? SEEK_END)]]; cbn; rewrite ?Hii; cbn).
  all: try match goal with
       | |- context [negb (?a =? ?b)] => destruct (a =? b); cbn
       end.
  all: eexists _, _, _, _; (split; [reflexivity|]); cbn.
  all: split; [exact Hhook|].
  all: do 4 (split; [reflexivity|]).
  all: rewrite <- ?app_assoc; cbn [app].
  all: split; [first [reflexivity | symmetry; apply app_nil_r]|].
  all: split; [first [exact Hf | apply lookup_insert_eq]|].
  all: split; reflexivity.
Qed.

End OpenDescriptor.

(** C1.  For [write] and [pwrite] on a tagged descriptor that resolves to an
    open file, with a cache that answers a byte count: the first call of
    the data path is the offer of the whole range to the page cache
    ([write_cache]; in replicate mode [pwrite] mirrors the write locally
    before that and goes on only if that succeeded).  If the inode is
    write-through or the cache accepted fewer than [count] bytes, the next
    call to the backend is [cfs_pwrite] for the entire range [buf], [count]
    at the same offset (preceded only by the clearing of the cached range
    after a short accept); otherwise no backend write is made and the
    result is what the cache accepted.  Whenever the data path wrote
    [n > 0] bytes, the inode's cached size becomes
    [max (old size) (offset + n)]. *)
Theorem write_data_path (h : header) (sdk : oracle) (s : state)
    (fd k : Z) (f : file_t) (ii : inode_info_t) (buf : list Z)
    (count offset : Z) :
  g_hook s = true -> 0 <= fd -> fd_in_cfs h fd = true ->
  get_cfs_fd h fd s = (Ret k, s) ->
  open_files s !! k = Some f ->
  heap s !! inode_info f = Some ii ->
  (forall hist a o n b, 0 <= sdk Z hist (write_cache a o n b) < 2 ^ 64) ->
  (replicate_on s = true ->
   0 <= sdk Z (log s) (libc_pwrite k buf count offset)) ->
  let p := inode_info f in
  let id := cfs_client_id s in
  let write_through :=
    negb (Z.land (cache_flag ii) (FILE_CACHE_WRITE_THROUGH h) =? 0) in
  (* write(fd, buf, count) *)
  (let off :=
     if negb (Z.land (flags f) O_APPEND =? 0) then s64 (size ii) else pos f in
   let offer := Ev (write_cache p off count buf) in
   let accepted := sdk Z (log s) (write_cache p off count buf) in
   let through := write_through || (accepted <? count) in
   let clear :=
     if accepted <? count then [Ev (clear_inode_range p off count)] else [] in
   let rb := sdk Z (log s ++ offer :: clear) (cfs_pwrite id k buf count off) in
   let n := if through then (if rb <? 0 then -1 else rb) else accepted in
   let mirror :=
     if (0 <? n) && replicate_on s then [Ev (libc_write k buf count)] else [] in
   exists r s' post,
     real_write h sdk fd buf count s = (Ret r, s') /\
     log s' = log s ++ offer :: post /\
     (replicate_on s = false -> r = n) /\
     (through = true ->
        post = clear ++ Ev (cfs_pwrite id k buf count off)
                 :: mirror ++ [Ev (cfs_ump id UMP_CFS_WRITE)]) /\
     (through = false -> post = mirror ++ [Ev (cfs_ump id UMP_CFS_WRITE)]) /\
     (0 < n -> 0 <= off + n < 2 ^ 64 ->
        heap s' !! p = Some (set_size (Z.max (size ii) (off + n)) ii))) /\
  (* pwrite(fd, buf, count, offset) *)
  (let pre :=
     if replicate_on s then [Ev (libc_pwrite k buf count offset)] else [] in
   let offer := Ev (write_cache p offset count buf) in
   let accepted := sdk Z (log s ++ pre) (write_cache p offset count buf) in
   let through := write_through || (accepted <? count) in
   let clear :=
     if accepted <? count then [Ev (clear_inode_range p offset count)] else [] in
   exists n s' post,
     real_pwrite h sdk fd buf count offset s = (Ret n, s') /\
     log s' = log s ++ pre ++ offer :: post /\
     (through = true ->
        post = clear ++ [Ev (cfs_pwrite id k buf count offset);
                         Ev (cfs_ump id UMP_CFS_WRITE)]) /\
     (through = false ->
        n = accepted /\ post = [Ev (cfs_ump id UMP_CFS_WRITE)]) /\
     (0 < n -> 0 <= offset + n < 2 ^ 64 ->
        heap s' !! p = Some (set_size (Z.max (size ii) (offset + n)) ii))).
Proof.
  intros Hhook Hfd Hcfs Hres Hf Hii Hcache Hmirror p id write_through.
  split.
  - destruct (write_spec h sdk s fd k f ii Hhook Hfd Hcfs Hres Hf Hii buf count
                (Hcache _ _ _ _ _))
      as (r & s' & post & Hrun & Hlog & Hr & Ht & Hnt & Hpos & _).
    exists r, s', post. repeat (split; [assumption|]).
    intros Hn Hrange. destruct (Hpos Hn) as [-> _].
    rewrite lookup_insert_eq. do 3 f_equal. apply u64_small. exact Hrange.
  - destruct (pwrite_spec h sdk s fd k f ii Hhook Hfd Hcfs Hres Hf Hii buf count
                offset Hmirror (Hcache _ _ _ _ _))
      as (n & s' & post & Hrun & Hlog & Ht & Hnt & Hpos & _).
    exists n, s', post. repeat (split; [assumption|]).
    intros Hn Hrange. rewrite (Hpos Hn).
    rewrite lookup_insert_eq. do 3 f_equal. apply u64_small. exact Hrange.
Qed.


Lemma write_data_path_witness :
  let s := process {[5 := file5 0 0]} {[77 := 900]} {[900 := ino77 0 0]} in
  let sdk := scripted (fun _ => reply 2) in
  (forall hist a o n b, 0 <= sdk Z hist (write_cache a o n b) < 2 ^ 64) /\
  exists s', real_pwrite hdr sdk (2 ^ 30 + 5) [1; 2] 2 0 s = (Ret 2, s') /\
    heap s' !! 900 = Some (set_size 2 (ino77 0 0)).
Proof.
  assert (Hcache : forall hist a o n b,
             0 <= scripted (fun _ => reply 2) Z hist (write_cache a o n b) < 2 ^ 64)
    by (intros; cbn; lia).
  split; [exact Hcache|].
  destruct (write_data_path hdr (scripted (fun _ => reply 2))
              (process {[5 := file5 0 0]} {[77 := 900]} {[900 := ino77 0 0]})
              (2 ^ 30 + 5) 5 (file5 0 0) (ino77 0 0) [1; 2] 2 0)
    as [_ (n & s' & post & Hrun & _ & _ & Hcached & Hsize)];
    [reflexivity | lia | reflexivity | reflexivity | reflexivity | reflexivity
    | exact Hcache | discriminate |].
  destruct Hcached as [-> _]; [reflexivity|].
  exists s'. split; [exact Hrun|]. apply Hsize; cbn; lia.
Defined.

Lemma get_cfs_fd_same_aliases (h : header) (s s1 : state) (fd k : Z) :
  dup_fds s1 = dup_fds s ->
  get_cfs_fd h fd s = (Ret k, s) -> get_cfs_fd h fd s1 = (Ret k, s1).
Proof.
  unfold get_cfs_fd, mbind, get, mreturn. intros ->.
  destruct (dup_fds s !! fd); intros [= <-]; reflexivity.
Qed.

(** C6.  On a descriptor opened with [O_APPEND], whatever [lseek] was
    issued before: [write] offers the data to the cache at the inode's
    cached size, any write-through goes to the backend at that offset, and
    [writev] writes to the backend at that offset; after [n > 0] bytes the
    cursor is the cached size plus [n]. *)
Theorem append_targets_eof (h : header) (sdk : oracle) (s : state)
    (fd k : Z) (f : file_t) (ii : inode_info_t) (buf : list Z) (count : Z)
    (iov : list (list Z)) (offset whence : Z) :
  g_hook s = true -> 0 <= fd -> fd_in_cfs h fd = true ->
  get_cfs_fd h fd s = (Ret k, s) ->
  open_files s !! k = Some f ->
  heap s !! inode_info f = Some ii ->
  Z.land (flags f) O_APPEND <> 0 ->
  0 <= size ii < 2 ^ 63 ->
  (forall hist a o n b, 0 <= sdk Z hist (write_cache a o n b) < 2 ^ 64) ->
  (replicate_on s = true -> forall hist, 0 <= sdk Z hist (libc_writev k iov)) ->
  let p := inode_info f in
  let id := cfs_client_id s in
  let eof := size ii in
  exists r1 s1,
    real_lseek h sdk fd offset whence s = (Ret r1, s1) /\
    (let offer := Ev (write_cache p eof count buf) in
     let accepted := sdk Z (log s1) (write_cache p eof count buf) in
     let through :=
       negb (Z.land (cache_flag ii) (FILE_CACHE_WRITE_THROUGH h) =? 0)
       || (accepted <? count) in
     let clear :=
       if accepted <? count then [Ev (clear_inode_range p eof count)] else [] in
     let rb := sdk Z (log s1 ++ offer :: clear) (cfs_pwrite id k buf count eof) in
     let n := if through then (if rb <? 0 then -1 else rb) else accepted in
     exists r s2 post,
       real_write h sdk fd buf count s1 = (Ret r, s2) /\
       log s2 = log s1 ++ offer :: post /\
       (through = true ->
          exists tail,
            post = clear ++ Ev (cfs_pwrite id k buf count eof) :: tail) /\
       (0 < n ->
          exists f2, open_files s2 !! k = Some f2 /\ pos f2 = eof + n)) /\
    (let pre := if replicate_on s then [Ev (libc_writev k iov)] else [] in
     let rb := sdk Z (log s1 ++ pre) (cfs_pwritev id k iov eof) in
     let n := if rb <? 0 then -1 else rb in
     exists s2,
       real_writev h sdk fd iov s1 = (Ret n, s2) /\
       log s2 = log s1 ++ pre ++ [Ev (cfs_pwritev id k iov eof);
                                  Ev (cfs_ump id UMP_CFS_WRITE)] /\
       (0 < n ->
          exists f2, open_files s2 !! k = Some f2 /\ pos f2 = eof + n)).
Proof.
  intros Hhook Hfd Hcfs Hres Hf Hii Happ Hsz Hcache Hmirror p id eof.
  destruct (lseek_spec h sdk s fd k f ii Hhook Hfd Hcfs Hres Hf Hii offset whence)
    as (r1 & s1 & f1 & evs & Hseek & Hh1 & Hp1 & Hc1 & Hd1 & Hheap1 & Hlog1
        & Hf1 & Hfl1 & Hin1).
  exists r1, s1. split; [exact Hseek|].
  assert (Hhook1 : g_hook s1 = true) by congruence.
  assert (Hres1 : get_cfs_fd h fd s1 = (Ret k, s1))
    by (eapply get_cfs_fd_same_aliases; eassumption).
  assert (Hii1 : heap s1 !! inode_info f1 = Some ii) by congruence.
  assert (Hrep1 : replicate_on s1 = replicate_on s)
    by (unfold replicate_on; congruence).
  assert (Hoff : (if negb (Z.land (flags f1) O_APPEND =? 0)
                  then s64 (size ii) else pos f1) = eof).
  { rewrite Hfl1. destruct (Z.eqb_spec (Z.land (flags f) O_APPEND) 0) as [E|_];
      [contradiction|]. cbn. apply s64_small. lia. }
  split.
  - destruct (write_spec h sdk s1 fd k f1 ii Hhook1 Hfd Hcfs Hres1 Hf1 Hii1
                buf count (Hcache _ _ _ _ _))
      as (r & s2 & post & Hrun & Hlog & _ & Ht & _ & Hpos & _).
    rewrite Hoff, Hin1, Hc1 in *.
    exists r, s2, post. split; [exact Hrun|]. split; [exact Hlog|].
    split.
    + intros Hthrough. eexists. apply Ht. exact Hthrough.
    + intros Hn. destruct (Hpos Hn) as [_ Hfile].
      eexists. split; [exact Hfile|reflexivity].
  - assert (Hm1 : replicate_on s1 = true ->
                  0 <= sdk Z (log s1) (libc_writev k iov)).
    { intros E. apply Hmirror. congruence. }
    destruct (writev_spec h sdk s1 fd k f1 ii Hhook1 Hfd Hcfs Hres1 Hf1 Hii1
                iov Hm1) as (s2 & Hrun & Hlog & Hpos & _).
    rewrite Hoff, Hin1, Hc1, Hrep1 in *.
    exists s2. split; [exact Hrun|]. split; [exact Hlog|].
    intros Hn. destruct (Hpos Hn) as [_ Hfile].
    eexists. split; [exact Hfile|reflexivity].
Qed.

Lemma append_targets_eof_witness :
  let s := process {[5 := file5 O_APPEND 3]} {[77 := 900]} {[900 := ino77 10 0]} in
  Z.land (flags (file5 O_APPEND 3)) O_APPEND <> 0 /\
  exists r1 s1 r s2 post,
    real_lseek hdr quiet (2 ^ 30 + 5) 0 SEEK_SET s = (Ret r1, s1) /\
    real_write hdr quiet (2 ^ 30 + 5) [1; 2] 2 s1 = (Ret r, s2) /\
    log s2 = log s1 ++ Ev (write_cache 900 10 2 [1; 2]) :: post.
Proof.
  split; [discriminate|].
  destruct (append_targets_eof hdr quiet
              (process {[5 := file5 O_APPEND 3]} {[77 := 900]} {[900 := ino77 10 0]})
              (2 ^ 30 + 5) 5 (file5 O_APPEND 3) (ino77 10 0) [1; 2] 2 [] 0 SEEK_SET)
    as (r1 & s1 & Hseek & (r & s2 & post & Hrun & Hlog & _) & _);
    [reflexivity | lia | reflexivity | reflexivity | reflexivity | reflexivity
    | discriminate | cbn; lia | intros; cbn; lia | discriminate |].
  exists r1, s1, r, s2, post. split; [exact Hseek|]. split; [exact Hrun|exact Hlog].
Defined.

(** ** read, pread: the cache, the refresh and the network fetch *)

Local Arguments cfs_pread_sock : simpl never.

Lemma with_log_nil (s : state) : with_log [] s = s.
Proof. destruct s. unfold with_log, set_log. cbn. rewrite app_nil_r. reflexivity. Qed.

Lemma with_log_app (a b : list event) (s : state) :
  with_log b (with_log a s) = with_log (a ++ b) s.
Proof. unfold with_log, set_log. cbn. rewrite app_assoc. reflexivity. Qed.

Lemma pread_sock_loop_frame (sdk : oracle) (n : nat) :
  forall req buf read s r s',
    pread_sock_loop sdk n req buf read s = (r, s') ->
    exists evs, s' = with_log evs s /\
      forallb (fun e => negb (is_refresh e) && negb (is_cfs_pread e)) evs = true.
Proof.
  induction n as [|n IH]; intros req buf read s r s' Hrun; cbn in Hrun.
  - inversion Hrun; subst. exists []. split; [symmetry; apply with_log_nil|reflexivity].
  - destruct req as [|q req]; [inversion Hrun; subst; exists []; split;
      [symmetry; apply with_log_nil|reflexivity]|].
    destruct (req_size q =? 0);
      [inversion Hrun; subst; exists []; split;
        [symmetry; apply with_log_nil|reflexivity]|].
    destruct (partition_id q =? 0); [eapply IH; exact Hrun|].
    unfold_monad. cbn in Hrun.
    repeat match type of Hrun with
    | context [if ?b then _ else _] => destruct b; cbn in Hrun
    end.
    all: try (apply IH in Hrun as (evs & -> & Hevs)).
    all: try (inversion Hrun; subst; clear Hrun).
    all: repeat match goal with
         | |- context [set_log (fun l => l ++ ?e) ?s] =>
             change (set_log (fun l => l ++ e) s) with (with_log e s)
         end.
    all: rewrite ?with_log_app.
    all: eexists; (split; [reflexivity|]).
    all: cbn; try assumption; try reflexivity.
Qed.

Lemma forallb_no_refresh (evs : list event) :
  forallb (fun e => negb (is_refresh e) && negb (is_cfs_pread e)) evs = true ->
  forallb (fun e => negb (is_refresh e)) evs = true.
Proof.
  induction evs as [|e evs IH]; [reflexivity|]. cbn.
  intros H. apply andb_true_iff in H as [He Hevs].
  apply andb_true_iff in He as [He _]. rewrite He, (IH Hevs). reflexivity.
Qed.

Lemma forallb_snoc {A} (p : A -> bool) (l : list A) (a : A) :
  forallb p l = true -> p a = true -> forallb p (l ++ [a]) = true.
Proof.
  intros Hl Ha. rewrite forallb_app, Hl. cbn. rewrite Ha. reflexivity.
Qed.

Lemma cfs_pread_sock_frame (sdk : oracle) (id fd : Z) (buf : list Z)
    (count offset : Z) (hasRefreshed : bool) (s : state) r s' :
  cfs_pread_sock sdk id fd buf count offset hasRefreshed s = (r, s') ->
  exists evs,
    s' = with_log (Ev (cfs_read_requests id fd count offset 3) :: evs) s /\
    forallb (fun e => negb (is_refresh e)) evs = true.
Proof.
  unfold cfs_pread_sock. unfold mbind at 1. unfold call at 1.
  set (x := sdk _ (log s) (cfs_read_requests id fd count offset 3)).
  change (set_log (fun l => l ++ [Ev (cfs_read_requests id fd count offset 3)]) s)
    with (with_log [Ev (cfs_read_requests id fd count offset 3)] s).
  unfold mbind at 1.
  destruct (pread_sock_loop sdk (Z.to_nat x.1)
              (take 3 (x.2 ++ replicate 3 zero_req)) buf 0
              (with_log [Ev (cfs_read_requests id fd count offset 3)] s))
    as [r1 s1] eqn:Hloop.
  apply pread_sock_loop_frame in Hloop as (evs & -> & Hevs).
  apply forallb_no_refresh in Hevs.
  rewrite with_log_app. cbn [app].
  destruct r1 as [[[read err] b]| |].
  - cbn. destruct ((u64 read <? count) && negb hasRefreshed || ((x.1 <? 0) || err)).
    + unfold_monad. cbn. intros [= <- <-].
      exists (evs ++ [Ev (cfs_pread id fd count offset)]). split.
      * unfold with_log, set_log. cbn. rewrite <- app_assoc. reflexivity.
      * apply forallb_snoc; [exact Hevs|reflexivity].
    + intros [= <- <-]. exists evs. split; [reflexivity|exact Hevs].
  - intros [= <- <-]. exists evs. split; [reflexivity|exact Hevs].
  - intros [= <- <-]. exists evs. split; [reflexivity|exact Hevs].
Qed.

Lemma read_through_cache_spec (h : header) (sdk : oracle) (s : state)
    (f : file_t) (fd : Z) (buf : list Z) (count offset : Z)
    (ii : inode_info_t) :
  heap s !! inode_info f = Some ii ->
  let p := inode_info f in
  let id := cfs_client_id s in
  let x := sdk _ (log s) (read_cache p offset count) in
  let re_cache := fst x in
  0 <= re_cache <= count -> 0 <= offset -> offset + count < 2 ^ 64 ->
  let refresh :=
    (re_cache <? count) && (size ii <=? offset + count)
    && negb (file_type f =? FILE_TYPE_BIN_LOG h) in
  let refreshed :=
    u64 (sdk Z (log s ++ [Ev (read_cache p offset count); Ev (flush_inode p);
                          Ev (cfs_flush id fd)])
           (cfs_refresh_eks id (inode ii))) in
  let sz := if refresh then refreshed else size ii in
  let pre :=
    Ev (read_cache p offset count)
    :: (if refresh
        then [Ev (flush_inode p); Ev (cfs_flush id fd);
              Ev (cfs_refresh_eks id (inode ii))]
        else []) in
  let net := (re_cache <? count) && (offset + re_cache <? sz) in
  let new_count := if sz <? offset + count then u64 (sz - offset) else count in
  exists r s' rest,
    read_through_cache h sdk f fd buf count offset s = (r, s') /\
    log s' = log s ++ pre ++ rest /\
    heap s' = (if refresh
               then <[p := set_size (Z.max (size ii) refreshed) ii]> (heap s)
               else heap s) /\
    open_files s' = open_files s /\
    (net = true ->
       exists tail,
         rest = [Ev (flush_inode_range p offset count); Ev (cfs_flush id fd);
                 Ev (cfs_read_requests id fd new_count offset 3)] ++ tail /\
         forallb (fun e => negb (is_refresh e)) tail = true) /\
    (net = false ->
       rest = [] /\ r = Ret (re_cache, deposit buf 0 count (snd x))).
Proof.
  intros Hii p id x re_cache Hrc Hoff Hrange refresh refreshed sz pre net new_count.
  unfold read_through_cache, update_inode_size, cfs_errno_ssize_t, cfs_errno.
  subst p id. cbv zeta.
  unfold_monad. rewrite Hii. cbn.
  fold x. fold re_cache.
  rewrite (u64_small re_cache) by lia.
  rewrite (u64_small (offset + count)) by lia.
  rewrite (u64_small (offset + re_cache)) by lia.
  remember ((re_cache <? count) && (size ii <=? offset + count)
            && negb (file_type f =? FILE_TYPE_BIN_LOG h)) as c eqn:Hc.
  subst refresh. destruct c; cbn; repeat (rewrite ?Hii; cbn).
  all: rewrite <- ?app_assoc; cbn [app]; fold refreshed.
  all: subst sz pre; cbn [fst snd].
  all: remember ((re_cache <? count) && (offset + re_cache <? _)) as d eqn:Hd.
  all: subst net; destruct d; cbn.
  all: try (eexists _, _, []; split; [reflexivity|]; cbn;
            rewrite <- ?app_assoc; cbn [app];
            repeat (split; [reflexivity|]);
            split; [discriminate | intros _; split; reflexivity]).
  all: match goal with
       | |- context [cfs_pread_sock ?a ?b ?c ?d ?e ?f ?g ?st] =>
           destruct (cfs_pread_sock a b c d e f g st) as [r1 s1] eqn:Hsock;
           apply cfs_pread_sock_frame in Hsock as (tail & -> & Htail)
       end.
  all: destruct r1 as [[n b]| |]; cbn; try destruct (n <? 0); cbn.
  all: eexists _, _, _; (split; [reflexivity|]); cbn;
       rewrite <- ?app_assoc; cbn [app].
  all: repeat (split; [reflexivity|]).
  all: split; [intros _; exists tail; split; [reflexivity|exact Htail]
              | discriminate].
Qed.

Local Arguments read_through_cache : simpl never.

Lemma read_check_spec (sdk : oracle) (buf bl : list Z) (offset re re_local : Z)
    (s : state) :
  let min_res := if re_local <? re then re_local else re in
  read_check sdk buf bl offset re re_local s =
    if (0 <? re_local) && (0 <? re) && memcmp buf bl min_res
    then (Exit 1,
          with_log [Ev (log_debug "read: data from CFS and local is not consistent");
                    Ev (find_diff_data buf bl offset min_res);
                    Ev cfs_flush_log] s)
    else (Ret tt, s).
Proof.
  cbv zeta. unfold read_check.
  destruct ((0 <? re_local) && (0 <? re)
            && memcmp buf bl (if re_local <? re then re_local else re));
    [|reflexivity].
  unfold_monad. cbn. unfold with_log, set_log. cbn.
  rewrite <- !app_assoc. reflexivity.
Qed.

Local Arguments read_check : simpl never.

Section ReadPath.

Context (h : header) (sdk : oracle) (s : state) (fd k : Z) (f : file_t)
  (ii : inode_info_t).
Hypothesis Hhook : g_hook s = true.
Hypothesis Hfd : 0 <= fd.
Hypothesis Hcfs : fd_in_cfs h fd = true.
Hypothesis Hres : get_cfs_fd h fd s = (Ret k, s).
Hypothesis Hf : open_files s !! k = Some f.
Hypothesis Hii : heap s !! inode_info f = Some ii.

Lemma pread_spec (buf : list Z) (count offset : Z) :
  (replicate_on s = true -> is_Some (sdk _ (log s) (malloc count))) ->
  let p := inode_info f in
  let id := cfs_client_id s in
  let local :=
    if replicate_on s
    then [Ev (malloc count); Ev (libc_pread k count offset)] else [] in
  let x := sdk _ (log s ++ local) (read_cache p offset count) in
  let re_cache := fst x in
  0 <= re_cache <= count -> 0 <= offset -> offset + count < 2 ^ 64 ->
  let refresh :=
    (re_cache <? count) && (size ii <=? offset + count)
    && negb (file_type f =? FILE_TYPE_BIN_LOG h) in
  let refreshed :=
    u64 (sdk Z (log s ++ local ++
                [Ev (read_cache p offset count); Ev (flush_inode p);
                 Ev (cfs_flush id k)])
           (cfs_refresh_eks id (inode ii))) in
  let sz := if refresh then refreshed else size ii in
  let pre :=
    Ev (read_cache p offset count)
    :: (if refresh
        then [Ev (flush_inode p); Ev (cfs_flush id k);
              Ev (cfs_refresh_eks id (inode ii))]
        else []) in
  let net := (re_cache <? count) && (offset + re_cache <? sz) in
  let new_count := if sz <? offset + count then u64 (sz - offset) else count in
  exists r s' rest,
    real_pread h sdk fd buf count offset s = (r, s') /\
    log s' = log s ++ local ++ pre ++ rest /\
    forallb (fun e => negb (is_refresh e)) rest = true /\
    heap s' = (if refresh
               then <[p := set_size (Z.max (size ii) refreshed) ii]> (heap s)
               else heap s) /\
    (net = true ->
       exists tail,
         rest = [Ev (flush_inode_range p offset count); Ev (cfs_flush id k);
                 Ev (cfs_read_requests id k new_count offset 3)] ++ tail).
Proof.
  intros Hmalloc p id local x re_cache Hrc Hoff Hrange refresh refreshed sz pre
    net new_count.
  destruct (get_cfs_fd_inv _ _ _ _ _ Hres) as [_ Hk].
  unfold real_pread. destruct (fd <? 0) eqn:Hneg; [apply Z.ltb_lt in Hneg; lia|].
  unfold real_pread_cfs, get_cfs_fd, get_open_file. unfold_monad.
  rewrite Hhook, Hcfs. cbn [andb].
  assert (Hrtc : forall st, heap st = heap s -> cfs_client_id st = cfs_client_id s ->
            log st = log s ++ local ->
            exists r s' rest,
              read_through_cache h sdk f k buf count offset st = (r, s') /\
              log s' = log s ++ local ++ pre ++ rest /\
              heap s' = (if refresh
               then <[p := set_size (Z.max (size ii) refreshed) ii]> (heap s)
               else heap s) /\
              (net = true ->
                 exists tail,
         rest = [Ev (flush_inode_range p offset count); Ev (cfs_flush id k);
                 Ev (cfs_read_requests id k new_count offset 3)] ++ tail /\
         forallb (fun e => negb (is_refresh e)) tail = true) /\
              (net = false ->
       rest = [] /\ r = Ret (re_cache, deposit buf 0 count (snd x)))).
  { intros st Hh Hc Hl.
    assert (Hii' : heap st !! inode_info f = Some ii) by (rewrite Hh; exact Hii).
    destruct (read_through_cache_spec h sdk st f k buf count offset ii Hii')
      as (r & s' & rest & Hrun & Hlog & Hheap & _ & Hnet & Hnn).
    1-3: rewrite ?Hl; assumption.
    rewrite Hl, Hc, Hh in *. rewrite <- !app_assoc in *. 
    exists r, s', rest. split; [exact Hrun|]. split; [exact Hlog|]. split; [exact Hheap|]. split; [exact Hnet|]. exact Hnn. }
  clearbody net new_count refresh refreshed sz.
  subst local. destruct (dup_fds s !! fd) as [fd'|] eqn:Hdup; subst k.
  all: destruct (replicate_on s) eqn:Hrep; cbn.
  all: try (destruct (Hmalloc eq_refl) as [blk Hblk]; rewrite Hblk; cbn).
  all: rewrite ?Hf; cbn.
  all: match goal with
       | |- context [read_through_cache ?a ?b ?c ?d ?e ?g ?i ?st] =>
           destruct (Hrtc st) as (r & s1 & rest & Hrun & Hlog & Hheap & Hnet & Hnn);
           [reflexivity | reflexivity
           | cbn; rewrite <- ?app_assoc, ?app_nil_r; reflexivity |];
           rewrite Hrun
       end.
  all: assert (Hrest : forallb (fun e => negb (is_refresh e)) rest = true)
         by (destruct net;
             [destruct (Hnet eq_refl) as (tail & -> & Ht); cbn; exact Ht
             |destruct (Hnn eq_refl) as [-> _]; reflexivity]).
  all: destruct r as [[n b]| |]; cbn; rewrite ?read_check_spec.
  all: repeat match goal with
       | |- context [if ?c then (Exit _, _) else _] => destruct c
       end; cbn.
  all: eexists _, _, _; (split; [reflexivity|]).
  all: split; [cbn; rewrite Hlog; rewrite <- ?app_assoc; cbn [app];
               rewrite <- ?app_assoc; try reflexivity;
               rewrite <- (app_nil_r rest) at 1; reflexivity|].
  all: split; [rewrite ?forallb_app, ?Hrest; reflexivity|].
  all: split; [exact Hheap|].
  all: intros Hn; destruct (Hnet Hn) as (tail & -> & _); eexists;
       cbn [app]; reflexivity.
Qed.

Lemma read_spec (buf : list Z) (count : Z) :
  (replicate_on s = true ->
   is_Some (sdk _ (log s) (malloc count)) /\
   0 <= sdk Z (log s ++ [Ev (malloc count)]) (libc_lseek k (pos f) SEEK_SET)) ->
  let p := inode_info f in
  let id := cfs_client_id s in
  let offset := pos f in
  let local :=
    if replicate_on s
    then [Ev (malloc count); Ev (libc_lseek k offset SEEK_SET);
          Ev (libc_read k count)]
    else [] in
  let x := sdk _ (log s ++ local) (read_cache p offset count) in
  let re_cache := fst x in
  0 <= re_cache <= count -> 0 <= offset -> offset + count < 2 ^ 64 ->
  let refresh :=
    (re_cache <? count) && (size ii <=? offset + count)
    && negb (file_type f =? FILE_TYPE_BIN_LOG h) in
  let refreshed :=
    u64 (sdk Z (log s ++ local ++
                [Ev (read_cache p offset count); Ev (flush_inode p);
                 Ev (cfs_flush id k)])
           (cfs_refresh_eks id (inode ii))) in
  let sz := if refresh then refreshed else size ii in
  let pre :=
    Ev (read_cache p offset count)
    :: (if refresh
        then [Ev (flush_inode p); Ev (cfs_flush id k);
              Ev (cfs_refresh_eks id (inode ii))]
        else []) in
  let net := (re_cache <? count) && (offset + re_cache <? sz) in
  let new_count := if sz <? offset + count then u64 (sz - offset) else count in
  exists r s' rest,
    real_read h sdk fd buf count s = (r, s') /\
    log s' = log s ++ local ++ pre ++ rest /\
    forallb (fun e => negb (is_refresh e)) rest = true /\
    heap s' = (if refresh
               then <[p := set_size (Z.max (size ii) refreshed) ii]> (heap s)
               else heap s) /\
    (net = true ->
       exists tail,
         rest = [Ev (flush_inode_range p offset count); Ev (cfs_flush id k);
                 Ev (cfs_read_requests id k new_count offset 3)] ++ tail).
Proof.
  intros Hmalloc p id offset local x re_cache Hrc Hoff Hrange refresh refreshed sz pre
    net new_count.
  destruct (get_cfs_fd_inv _ _ _ _ _ Hres) as [_ Hk].
  unfold real_read. destruct (fd <? 0) eqn:Hneg; [apply Z.ltb_lt in Hneg; lia|].
  unfold real_read_cfs, get_cfs_fd, get_open_file. unfold_monad.
  rewrite Hhook, Hcfs. cbn [andb].
  assert (Hrtc : forall st, heap st = heap s -> cfs_client_id st = cfs_client_id s ->
            log st = log s ++ local ->
            exists r s' rest,
              read_through_cache h sdk f k buf count offset st = (r, s') /\
              log s' = log s ++ local ++ pre ++ rest /\
              heap s' = (if refresh
               then <[p := set_size (Z.max (size ii) refreshed) ii]> (heap s)
               else heap s) /\
              (net = true ->
                 exists tail,
         rest = [Ev (flush_inode_range p offset count); Ev (cfs_flush id k);
                 Ev (cfs_read_requests id k new_count offset 3)] ++ tail /\
         forallb (fun e => negb (is_refresh e)) tail = true) /\
              (net = false ->
       rest = [] /\ r = Ret (re_cache, deposit buf 0 count (snd x)))).
  { intros st Hh Hc Hl.
    assert (Hii' : heap st !! inode_info f = Some ii) by (rewrite Hh; exact Hii).
    destruct (read_through_cache_spec h sdk st f k buf count offset ii Hii')
      as (r & s' & rest & Hrun & Hlog & Hheap & _ & Hnet & Hnn).
    1-3: rewrite ?Hl; assumption.
    rewrite Hl, Hc, Hh in *. rewrite <- !app_assoc in *. 
    exists r, s', rest. split; [exact Hrun|]. split; [exact Hlog|]. split; [exact Hheap|]. split; [exact Hnet|]. exact Hnn. }
  clearbody net new_count refresh refreshed sz.
  subst local offset. destruct (dup_fds s !! fd) as [fd'|] eqn:Hdup; subst k.
  all: destruct (replicate_on s) eqn:Hrep; cbn; rewrite ?Hf; cbn.
  all: try (destruct (Hmalloc eq_refl) as [[blk Hblk] Hseek]; rewrite Hblk; cbn;
            apply Z.ltb_ge in Hseek; rewrite Hseek; cbn).
  all: match goal with
       | |- context [read_through_cache ?a ?b ?c ?d ?e ?g ?i ?st] =>
           destruct (Hrtc st) as (r & s1 & rest & Hrun & Hlog & Hheap & Hnet & Hnn);
           [reflexivity | reflexivity
           | cbn; rewrite <- ?app_assoc, ?app_nil_r; reflexivity |];
           rewrite Hrun
       end.
  all: assert (Hrest : forallb (fun e => negb (is_refresh e)) rest = true)
         by (destruct net;
             [destruct (Hnet eq_refl) as (tail & -> & Ht); cbn; exact Ht
             |destruct (Hnn eq_refl) as [-> _]; reflexivity]).
  all: destruct r as [[n b]| |]; cbn; try destruct (0 <? n); cbn;
       rewrite ?read_check_spec.
  all: repeat match goal with
       | |- context [if ?c then (Exit _, _) else _] => destruct c
       end; cbn.
  all: eexists _, _, _; (split; [reflexivity|]).
  all: split; [cbn; rewrite Hlog; rewrite <- ?app_assoc; cbn [app];
               rewrite <- ?app_assoc; try reflexivity;
               rewrite <- (app_nil_r rest) at 1; reflexivity|].
  all: split; [rewrite ?forallb_app, ?Hrest; reflexivity|].
  all: split; [exact Hheap|].
  all: intros Hn; destruct (Hnet Hn) as (tail & -> & _); eexists;
       cbn [app]; reflexivity.
Qed.

End ReadPath.

(** Closed numeric side conditions, by evaluation. *)
Ltac by_compute :=
  vm_compute; repeat split; first [discriminate | reflexivity].

(** C2 (as amended).  For [read] and [pread] on a tagged descriptor that
    resolves to an open file, when the page cache serves fewer bytes than
    requested, the requested range reaches the inode's cached size and the
    file type is not binlog: right after the cache lookup the operation
    flushes the inode ([flush_inode], [cfs_flush]), then asks the backend to
    refresh the extent keys, and the cached size becomes the maximum of the
    old cached size and the refreshed value; no other refresh is made.  For
    a binlog file no refresh is made at all and the cached size is
    unchanged. *)
Theorem read_refreshes_size (h : header) (sdk : oracle) (s : state)
    (fd k : Z) (f : file_t) (ii : inode_info_t) (buf : list Z)
    (count offset : Z) :
  g_hook s = true -> 0 <= fd -> fd_in_cfs h fd = true ->
  get_cfs_fd h fd s = (Ret k, s) ->
  open_files s !! k = Some f ->
  heap s !! inode_info f = Some ii ->
  (replicate_on s = true ->
   is_Some (sdk _ (log s) (malloc count)) /\
   0 <= sdk Z (log s ++ [Ev (malloc count)]) (libc_lseek k (pos f) SEEK_SET)) ->
  0 <= offset -> offset + count < 2 ^ 64 ->
  0 <= pos f -> pos f + count < 2 ^ 64 ->
  let p := inode_info f in
  let id := cfs_client_id s in
  let local_read :=
    if replicate_on s
    then [Ev (malloc count); Ev (libc_lseek k (pos f) SEEK_SET);
          Ev (libc_read k count)]
    else [] in
  let local_pread :=
    if replicate_on s
    then [Ev (malloc count); Ev (libc_pread k count offset)] else [] in
  0 <= fst (sdk _ (log s ++ local_read) (read_cache p (pos f) count)) <= count ->
  0 <= fst (sdk _ (log s ++ local_pread) (read_cache p offset count)) <= count ->
  let refresh_calls :=
    [Ev (flush_inode p); Ev (cfs_flush id k);
     Ev (cfs_refresh_eks id (inode ii))] in
  (* read(fd, buf, count) *)
  (let off := pos f in
   let local := local_read in
   let served := fst (sdk _ (log s ++ local) (read_cache p off count)) in
   let refreshed :=
     u64 (sdk Z (log s ++ local ++
                 [Ev (read_cache p off count); Ev (flush_inode p);
                  Ev (cfs_flush id k)])
            (cfs_refresh_eks id (inode ii))) in
   exists r s' rest,
     real_read h sdk fd buf count s = (r, s') /\
     forallb (fun e => negb (is_refresh e)) rest = true /\
     (served < count -> size ii <= off + count ->
      file_type f <> FILE_TYPE_BIN_LOG h ->
        log s' = log s ++ local ++ Ev (read_cache p off count)
                   :: refresh_calls ++ rest /\
        heap s' !! p = Some (set_size (Z.max (size ii) refreshed) ii)) /\
     (file_type f = FILE_TYPE_BIN_LOG h ->
        log s' = log s ++ local ++ Ev (read_cache p off count) :: rest /\
        heap s' = heap s)) /\
  (* pread(fd, buf, count, offset) *)
  (let local := local_pread in
   let served := fst (sdk _ (log s ++ local) (read_cache p offset count)) in
   let refreshed :=
     u64 (sdk Z (log s ++ local ++
                 [Ev (read_cache p offset count); Ev (flush_inode p);
                  Ev (cfs_flush id k)])
            (cfs_refresh_eks id (inode ii))) in
   exists r s' rest,
     real_pread h sdk fd buf count offset s = (r, s') /\
     forallb (fun e => negb (is_refresh e)) rest = true /\
     (served < count -> size ii <= offset + count ->
      file_type f <> FILE_TYPE_BIN_LOG h ->
        log s' = log s ++ local ++ Ev (read_cache p offset count)
                   :: refresh_calls ++ rest /\
        heap s' !! p = Some (set_size (Z.max (size ii) refreshed) ii)) /\
     (file_type f = FILE_TYPE_BIN_LOG h ->
        log s' = log s ++ local ++ Ev (read_cache p offset count) :: rest /\
        heap s' = heap s)).
Proof.
  intros Hhook Hfd Hcfs Hres Hf Hii Hlocal Hoff Hrange Hpos Hprange
    p id local_read local_pread Hcr Hcp refresh_calls.
  subst p id local_read local_pread refresh_calls. cbv zeta.
  split.
  - destruct (read_spec h sdk s fd k f ii Hhook Hfd Hcfs Hres Hf Hii buf count
                Hlocal Hcr Hpos Hprange)
      as (r & s' & rest & Hrun & Hlog & Hrest & Hheap & _).
    exists r, s', rest. split; [exact Hrun|]. split; [exact Hrest|]. split.
    + intros Hshort Hend Hbin.
      apply Z.ltb_lt in Hshort. apply Z.leb_le in Hend.
      apply Z.eqb_neq in Hbin.
      rewrite Hshort, Hend, Hbin in Hlog, Hheap. cbn in Hlog, Hheap.
      split; [exact Hlog|]. rewrite Hheap. apply lookup_insert_eq.
    + intros Hbin. apply Z.eqb_eq in Hbin.
      rewrite Hbin, !andb_false_r in Hlog, Hheap. cbn in Hlog.
      split; [exact Hlog|exact Hheap].
  - assert (Hm : replicate_on s = true -> is_Some (sdk _ (log s) (malloc count)))
      by (intros E; apply Hlocal; exact E).
    destruct (pread_spec h sdk s fd k f ii Hhook Hfd Hcfs Hres Hf Hii buf count
                offset Hm Hcp Hoff Hrange)
      as (r & s' & rest & Hrun & Hlog & Hrest & Hheap & _).
    exists r, s', rest. split; [exact Hrun|]. split; [exact Hrest|]. split.
    + intros Hshort Hend Hbin.
      apply Z.ltb_lt in Hshort. apply Z.leb_le in Hend.
      apply Z.eqb_neq in Hbin.
      rewrite Hshort, Hend, Hbin in Hlog, Hheap. cbn in Hlog, Hheap.
      split; [exact Hlog|]. rewrite Hheap. apply lookup_insert_eq.
    + intros Hbin. apply Z.eqb_eq in Hbin.
      rewrite Hbin, !andb_false_r in Hlog, Hheap. cbn in Hlog.
      split; [exact Hlog|exact Hheap].
Qed.

Lemma refresh_keeps_larger_size :
  let s := process {[5 := file5 0 0]} {[77 := 900]} {[900 := ino77 10 0]} in
  let sdk := scripted script_refresh_5 in
  let run := real_pread hdr sdk (2 ^ 30 + 5) [0; 0; 0; 0] 4 8 s in
  fst run = Ret (0, [0; 0; 0; 0]) /\
  log (snd run) = [Ev (read_cache 900 8 4); Ev (flush_inode 900);
                   Ev (cfs_flush 1 5); Ev (cfs_refresh_eks 1 77);
                   Ev (cfs_ump 1 UMP_CFS_READ)] /\
  sdk Z [Ev (read_cache 900 8 4); Ev (flush_inode 900); Ev (cfs_flush 1 5)]
      (cfs_refresh_eks 1 77) = 5 /\
  heap (snd run) !! 900 = Some (ino77 10 0).
Proof. vm_compute. repeat split; reflexivity. Qed.

Lemma read_refreshes_size_witness :
  let s := process {[5 := file5 0 0]} {[77 := 900]} {[900 := ino77 2 0]} in
  let sdk := scripted script_refresh_5 in
  0 <= fst (sdk _ (log s) (read_cache 900 0 4)) <= 4 /\
  exists r s',
    real_pread hdr sdk (2 ^ 30 + 5) [0; 0; 0; 0] 4 0 s = (r, s') /\
    heap s' !! 900 = Some (ino77 5 0).
Proof.
  split; [by_compute|].
  destruct (read_refreshes_size hdr (scripted script_refresh_5)
              (process {[5 := file5 0 0]} {[77 := 900]} {[900 := ino77 2 0]})
              (2 ^ 30 + 5) 5 (file5 0 0) (ino77 2 0) [0; 0; 0; 0] 4 0)
    as [_ (r & s' & rest & Hrun & _ & Hrefresh & _)];
    [reflexivity | lia | reflexivity | reflexivity | reflexivity | reflexivity
    | discriminate | lia | by_compute | by_compute | by_compute
    | by_compute | by_compute |].
  exists r, s'. split; [exact Hrun|].
  apply Hrefresh; [by_compute | by_compute | discriminate].
Defined.





Lemma forallb_no_cfs_pread (evs : list event) :
  forallb (fun e => negb (is_refresh e) && negb (is_cfs_pread e)) evs = true ->
  forallb (fun e => negb (is_cfs_pread e)) evs = true.
Proof.
  induction evs as [|e evs IH]; [reflexivity|]. cbn.
  intros H. apply andb_true_iff in H as [He Hevs].
  apply andb_true_iff in He as [_ He]. rewrite He, (IH Hevs). reflexivity.
Qed.

Section Fetch.

Context (h : header) (sdk : oracle) (s : state) (fd k : Z) (f : file_t)
  (ii : inode_info_t).
Hypothesis Hhook : g_hook s = true.
Hypothesis Hfd : 0 <= fd.
Hypothesis Hcfs : fd_in_cfs h fd = true.
Hypothesis Hres : get_cfs_fd h fd s = (Ret k, s).
Hypothesis Hf : open_files s !! k = Some f.
Hypothesis Hii : heap s !! inode_info f = Some ii.



End Fetch.





(** ** The consistency checker on the read family *)

(** In [read] and [pread] the check compares the first
    [min re_local re] bytes, and only when both sides returned data; a
    difference is logged, the logs are flushed and the process exits. *)
Lemma read_check_overlap (sdk : oracle) (buf bl : list Z)
    (offset re re_local : Z) (s : state) :
  0 < re -> 0 < re_local ->
  let n := Z.min re_local re in
  (take (Z.to_nat n) buf = take (Z.to_nat n) bl ->
   read_check sdk buf bl offset re re_local s = (Ret tt, s)) /\
  (take (Z.to_nat n) buf <> take (Z.to_nat n) bl ->
   read_check sdk buf bl offset re re_local s =
     (Exit 1,
      with_log [Ev (log_debug "read: data from CFS and local is not consistent");
                Ev (find_diff_data buf bl offset n);
                Ev cfs_flush_log] s)).
Proof.
  intros Hre Hlocal n. rewrite read_check_spec.
  assert (Hmin : (if re_local <? re then re_local else re) = n).
  { subst n. destruct (Z.ltb_spec re_local re); lia. }
  rewrite Hmin.
  assert (H1 : (0 <? re_local) = true) by (apply Z.ltb_lt; exact Hlocal).
  assert (H2 : (0 <? re) = true) by (apply Z.ltb_lt; exact Hre).
  rewrite H1, H2. cbn [andb]. unfold memcmp.
  split; intros Hcmp.
  - rewrite bool_decide_eq_true_2 by exact Hcmp. reflexivity.
  - rewrite bool_decide_eq_false_2 by exact Hcmp. reflexivity.
Qed.

(** C8.  [readv] in replicate mode on one 4-byte buffer: the backend and
    the replica both return 2 bytes, and the same ones; the code compares
    all 4 bytes of the buffers, finds the bytes that neither side returned
    different, and terminates the process. *)
Theorem readv_compares_whole_buffers :
  let s := mirrored {[5 := file5 0 0]} {[77 := 900]} {[900 := ino77 4 0]} in
  let sdk := scripted script_readv_short in
  let run := real_readv hdr sdk (2 ^ 30 + 5) [[0; 0; 0; 0]] s in
  sdk _ [] (cfs_preadv 1 5 [4] 0) = (2, [[1; 2]]) /\
  sdk _ [Ev (cfs_preadv 1 5 [4] 0); Ev (malloc 4); Ev (libc_lseek 5 0 SEEK_SET)]
      (libc_readv 5 [4]) = (2, [[1; 2]]) /\
  fst run = Exit 1 /\
  log (snd run) =
    [Ev (cfs_preadv 1 5 [4] 0); Ev (malloc 4); Ev (libc_lseek 5 0 SEEK_SET);
     Ev (libc_readv 5 [4]);
     Ev (log_debug "readv: data from CFS and local is not consistent");
     Ev (find_diff_data [1; 2; 0; 0] [1; 2; 7; 7] 0 4);
     Ev cfs_flush_log].
Proof. vm_compute. repeat split; reflexivity. Qed.

(** ** truncate, ftruncate and the stat family *)

Lemma s64_u64 (z : Z) : - 2 ^ 63 <= z < 2 ^ 63 -> s64 (u64 z) = z.
Proof.
  intros H. unfold s64, u64.
  rewrite Zplus_mod_idemp_l. rewrite Z.mod_small; lia.
Qed.

Lemma ftruncate_spec (h : header) (sdk : oracle) (s : state)
    (fd k : Z) (f : file_t) (ii : inode_info_t) (length : Z) :
  g_hook s = true -> 0 <= fd -> fd_in_cfs h fd = true ->
  get_cfs_fd h fd s = (Ret k, s) ->
  open_files s !! k = Some f ->
  heap s !! inode_info f = Some ii ->
  (replicate_on s = true -> 0 <= sdk Z (log s) (libc_ftruncate k length)) ->
  exists r s1 evs,
    real_ftruncate h sdk fd length s = (Ret r, s1) /\
    heap s1 = <[inode_info f := set_size (u64 length) ii]> (heap s) /\
    g_hook s1 = g_hook s /\ replicate_path s1 = replicate_path s /\
    cfs_client_id s1 = cfs_client_id s /\ dup_fds s1 = dup_fds s /\
    open_files s1 = open_files s /\ open_inodes s1 = open_inodes s /\
    log s1 = log s ++ evs.
Proof.
  intros Hhook Hfd Hcfs Hres Hf Hii Hlocal.
  destruct (get_cfs_fd_inv _ _ _ _ _ Hres) as [_ Hk].
  unfold real_ftruncate. destruct (fd <? 0) eqn:Hneg; [apply Z.ltb_lt in Hneg; lia|].
  unfold get_cfs_fd, get_open_file, cfs_errno. unfold_monad.
  rewrite Hhook, Hcfs. cbn [andb].
  destruct (dup_fds s !! fd) as [fd'|] eqn:Hdup; subst k.
  all: destruct (replicate_on s) eqn:Hrep; cbn.
  all: try match goal with
       | |- context [?o Z ?l (libc_ftruncate ?a ?b) <? 0] =>
           destruct (o Z l (libc_ftruncate a b) <? 0) eqn:Hlc;
           [apply Z.ltb_lt in Hlc; specialize (Hlocal eq_refl); lia|]
       end.
  all: cbn; rewrite Hf; cbn; rewrite Hii; cbn; rewrite ?Hii; cbn.
  all: match goal with
       | |- context [?o Z ?l (cfs_ftruncate ?a ?b ?c) <? 0] =>
           destruct (o Z l (cfs_ftruncate a b c) <? 0); cbn
       end.
  all: eexists _, _, _; (split; [reflexivity|]); cbn.
  all: split; [reflexivity|]. 
  all: split; [exact Hhook|].
  all: do 5 (split; [reflexivity|]).
  all: rewrite <- ?app_assoc; cbn [app]; reflexivity.
Qed.

Lemma fstat_spec (h : header) (sdk : oracle) (s : state)
    (ver fd k q : Z) (jj : inode_info_t) :
  g_hook s = true -> fd_in_cfs h fd = true ->
  get_cfs_fd h fd s = (Ret k, s) ->
  let a := sdk _ (log s) (cfs_fstat (cfs_client_id s) k) in
  fst a = 0 ->
  open_inodes s !! st_ino (snd a) = Some q ->
  heap s !! q = Some jj ->
  exists r s',
    real_fstat h sdk ver fd s = (Ret (r, set_st_size (s64 (size jj)) (snd a)), s') /\
    (replicate_on s = false -> r = 0).
Proof.
  intros Hhook Hcfs Hres a Hok Hino Hq.
  destruct (get_cfs_fd_inv _ _ _ _ _ Hres) as [_ Hk].
  unfold real_fstat, override_size, stat_check, get_cfs_fd, get_open_inode,
    cfs_errno. unfold_monad.
  rewrite Hhook, Hcfs. cbn [andb]. subst a.
  destruct (dup_fds s !! fd) as [fd'|] eqn:Hdup; subst k.
  all: cbn; rewrite Hok; cbn; rewrite Hino; cbn; rewrite Hq; cbn.
  all: destruct (replicate_on s) eqn:Hrep; cbn.
  all: repeat match goal with
       | |- context [if ?c then _ else _] => destruct c; cbn
       end.
  all: eexists _, _; (split; [reflexivity|]); intros; try discriminate;
       reflexivity.
Qed.

Lemma truncate_spec (sdk : oracle) (s : state) (pathname path : string)
    (length q : Z) (jj : inode_info_t) :
  g_hook s = true ->
  sdk _ (log s) (get_cfs_path pathname) = Some path ->
  let l0 := log s ++ [Ev (get_cfs_path pathname)] in
  let local :=
    if replicate_on s
    then [Ev (libc_truncate (cat_path (replicate_path s) path) length)]
    else [] in
  (replicate_on s = true ->
   0 <= sdk Z l0 (libc_truncate (cat_path (replicate_path s) path) length)) ->
  let id := cfs_client_id s in
  let l1 := l0 ++ local in
  0 <= sdk Z l1 (cfs_truncate id path length) ->
  let a := sdk _ (l1 ++ [Ev (cfs_truncate id path length)]) (cfs_stat id path) in
  fst a = 0 ->
  open_inodes s !! st_ino (snd a) = Some q ->
  heap s !! q = Some jj ->
  exists s1 evs,
    real_truncate sdk pathname length s
      = (Ret (sdk Z l1 (cfs_truncate id path length)), s1) /\
    heap s1 = <[q := set_size (u64 length) jj]> (heap s) /\
    g_hook s1 = g_hook s /\ replicate_path s1 = replicate_path s /\
    cfs_client_id s1 = cfs_client_id s /\ dup_fds s1 = dup_fds s /\
    open_files s1 = open_files s /\ open_inodes s1 = open_inodes s /\
    log s1 = log s ++ evs.
Proof.
  intros Hhook Hpath l0 local Hlocal id l1 Htrunc a Hok Hino Hq.
  unfold real_truncate, get_open_inode, cfs_errno. unfold_monad.
  rewrite Hpath. cbn. rewrite Hhook.
  subst a l1 local l0 id.
  change (replicate_on (set_log (fun l => l ++ [Ev (get_cfs_path pathname)]) s))
    with (replicate_on s).
  destruct (replicate_on s) eqn:Hrep; cbn; rewrite ?app_nil_r in *.
  all: try match goal with
       | |- context [?o Z ?l (libc_truncate ?a ?b) <? 0] =>
           destruct (o Z l (libc_truncate a b) <? 0) eqn:Hlc;
           [apply Z.ltb_lt in Hlc; specialize (Hlocal eq_refl); lia|]
       end.
  all: cbn.
  all: apply Z.ltb_ge in Htrunc; cbn [app] in *; rewrite <- ?app_assoc in *;
       cbn [app] in *; rewrite ?Htrunc; cbn; rewrite ?Htrunc; cbn.
  all: rewrite <- ?app_assoc; cbn [app]; rewrite ?Hok; cbn; rewrite ?Hino; cbn;
       rewrite ?Hq; cbn; rewrite ?Hq; cbn.
  all: eexists _, _; (split; [reflexivity|]); cbn.
  all: split; [reflexivity|].
  all: split; [exact Hhook|].
  all: do 5 (split; [reflexivity|]).
  all: rewrite <- ?app_assoc; cbn [app]; reflexivity.
Qed.

Lemma replicate_on_set_log (g : list event -> list event) (s : state) :
  replicate_on (set_log g s) = replicate_on s.
Proof. reflexivity. Qed.

Lemma stat_spec (sdk : oracle) (s : state) (ver : Z) (pathname path : string)
    (q : Z) (jj : inode_info_t) :
  g_hook s = true ->
  sdk _ (log s) (get_cfs_path pathname) = Some path ->
  let a := sdk _ (log s ++ [Ev (get_cfs_path pathname)])
             (cfs_stat (cfs_client_id s) path) in
  fst a = 0 ->
  open_inodes s !! st_ino (snd a) = Some q ->
  heap s !! q = Some jj ->
  exists r s',
    real_stat sdk ver pathname s
      = (Ret (r, set_st_size (s64 (size jj)) (snd a)), s') /\
    (replicate_on s = false -> r = 0).
Proof.
  intros Hhook Hpath a Hok Hino Hq.
  unfold real_stat, override_size, stat_check, get_open_inode, cfs_errno.
  unfold_monad. rewrite Hpath. cbn. rewrite Hhook. subst a.
  cbn [log set_log]. rewrite Hok; cbn; rewrite Hino; cbn; rewrite Hq; cbn.
  rewrite ?replicate_on_set_log.
  destruct (replicate_on s) eqn:Hrep; cbn.
  all: repeat match goal with
       | |- context [if ?c then _ else _] => destruct c; cbn
       end.
  all: eexists _, _; (split; [reflexivity|]); intros; try discriminate;
       reflexivity.
Qed.

(** C7 (as amended).  On an in-mount file whose inode is open:
    - [real_ftruncate] on an open descriptor (whose replica, in replicate
      mode, accepted the truncation) sets the cached size of the
      descriptor's inode to the new length, and a following [real_fstat]
      whose backend stat succeeds reports that length in [st_size];
    - [real_truncate] sets the cached size of the inode to the new length
      provided the backend truncation succeeds and the follow-up backend
      stat, by which the inode is located, succeeds and names the open
      inode; a following [real_stat] whose backend stat succeeds then
      reports that length in [st_size].
    In both cases the reported size is the cached one, whatever size the
    backend's stat returned. *)
Theorem truncate_updates_cached_size (h : header) (sdk : oracle) (s : state)
    (fd k : Z) (f : file_t) (ii : inode_info_t) (length ver : Z)
    (pathname path : string) (q : Z) (jj : inode_info_t) :
  g_hook s = true -> 0 <= fd -> fd_in_cfs h fd = true ->
  get_cfs_fd h fd s = (Ret k, s) ->
  open_files s !! k = Some f ->
  heap s !! inode_info f = Some ii ->
  heap s !! q = Some jj ->
  - 2 ^ 63 <= length < 2 ^ 63 ->
  let id := cfs_client_id s in
  let local_path := cat_path (replicate_path s) path in
  (* the replica, when there is one, accepts the two truncations *)
  (replicate_on s = true ->
   0 <= sdk Z (log s) (libc_ftruncate k length) /\
   forall hist, 0 <= sdk Z hist (libc_truncate local_path length)) ->
  (* the path is inside the mount *)
  (forall hist, sdk _ hist (get_cfs_path pathname) = Some path) ->
  (* the backend truncates the path, and its stats succeed and name the
     open inodes *)
  (forall hist, 0 <= sdk Z hist (cfs_truncate id path length)) ->
  (forall hist, fst (sdk _ hist (cfs_stat id path)) = 0 /\
     open_inodes s !! st_ino (snd (sdk _ hist (cfs_stat id path))) = Some q) ->
  (forall hist, fst (sdk _ hist (cfs_fstat id k)) = 0 /\
     open_inodes s !! st_ino (snd (sdk _ hist (cfs_fstat id k)))
     = Some (inode_info f)) ->
  (* ftruncate, then fstat *)
  (exists r1 s1,
     real_ftruncate h sdk fd length s = (Ret r1, s1) /\
     heap s1 !! inode_info f = Some (set_size (u64 length) ii) /\
     exists r2 st s2,
       real_fstat h sdk ver fd s1 = (Ret (r2, st), s2) /\
       st_size st = length) /\
  (* truncate, then stat *)
  (exists r1 s1,
     real_truncate sdk pathname length s = (Ret r1, s1) /\
     heap s1 !! q = Some (set_size (u64 length) jj) /\
     exists r2 st s2,
       real_stat sdk ver pathname s1 = (Ret (r2, st), s2) /\
       st_size st = length).
Proof.
  intros Hhook Hfd Hcfs Hres Hf Hii Hq Hlen id local_path Hlocal Hpath Htrunc
    Hstat Hfstat.
  split.
  - destruct (ftruncate_spec h sdk s fd k f ii length Hhook Hfd Hcfs Hres Hf Hii)
      as (r1 & s1 & evs & Hrun & Hheap & Hh1 & Hp1 & Hc1 & Hd1 & Ho1 & Hi1 & Hl1).
    { intros E. apply Hlocal. exact E. }
    exists r1, s1. split; [exact Hrun|].
    assert (Hobj : heap s1 !! inode_info f = Some (set_size (u64 length) ii))
      by (rewrite Hheap; apply lookup_insert_eq).
    split; [exact Hobj|].
    assert (Hres1 : get_cfs_fd h fd s1 = (Ret k, s1)).
    { revert Hres. unfold get_cfs_fd, mbind, get, mreturn. rewrite Hd1.
      destruct (dup_fds s !! fd); intros [= <-]; reflexivity. }
    destruct (fstat_spec h sdk s1 ver fd k (inode_info f)
                (set_size (u64 length) ii)) as (r2 & s2 & Hrun2 & _).
    + congruence.
    + exact Hcfs.
    + exact Hres1.
    + rewrite Hc1. apply Hfstat.
    + rewrite Hc1, Hi1. apply Hfstat.
    + exact Hobj.
    + eexists _, _, _. split; [exact Hrun2|].
      cbn. apply s64_u64. exact Hlen.
  - destruct (truncate_spec sdk s pathname path length q jj Hhook (Hpath _))
      as (s1 & evs & Hrun & Hheap & Hh1 & Hp1 & Hc1 & Hd1 & Ho1 & Hi1 & Hl1).
    { intros E. apply Hlocal. exact E. }
    { apply Htrunc. }
    { apply Hstat. }
    { apply Hstat. }
    { exact Hq. }
    eexists _, s1. split; [exact Hrun|].
    assert (Hobj : heap s1 !! q = Some (set_size (u64 length) jj))
      by (rewrite Hheap; apply lookup_insert_eq).
    split; [exact Hobj|].
    destruct (stat_spec sdk s1 ver pathname path q (set_size (u64 length) jj))
      as (r2 & s2 & Hrun2 & _).
    + congruence.
    + apply Hpath.
    + rewrite Hc1. apply Hstat.
    + rewrite Hc1, Hi1. apply Hstat.
    + exact Hobj.
    + eexists _, _, _. split; [exact Hrun2|].
      cbn. apply s64_u64. exact Hlen.
Qed.

(** The condition on the follow-up stat is needed: [real_truncate] to
    length 3 returns 0, but the backend stat issued right after the
    truncation fails, so the cached size stays 10 and a later [real_stat]
    (whose backend stat answers 3) reports 10. *)
Lemma stale_size_after_truncate :
  let s := process {[5 := file5 0 0]} {[77 := 900]} {[900 := ino77 10 0]} in
  let sdk := scripted script_stat_fails in
  let t := real_truncate sdk "/mnt/f"%string 3 s in
  let st := real_stat sdk 1 "/mnt/f"%string (snd t) in
  fst t = Ret 0 /\
  heap (snd t) !! 900 = Some (ino77 10 0) /\
  fst st = Ret (0, {| st_ino := 77; st_size := 10; st_mode := S_IFREG |}).
Proof. vm_compute. repeat split; reflexivity. Qed.

Lemma truncate_updates_cached_size_witness :
  let s := process {[5 := file5 0 0]} {[77 := 900]} {[900 := ino77 10 0]} in
  let sdk := scripted script_stat77 in
  (exists r1 s1,
     real_ftruncate hdr sdk (2 ^ 30 + 5) 7 s = (Ret r1, s1) /\
     exists r2 st s2,
       real_fstat hdr sdk 1 (2 ^ 30 + 5) s1 = (Ret (r2, st), s2) /\
       st_size st = 7) /\
  (exists r1 s1,
     real_truncate sdk "/mnt/f"%string 7 s = (Ret r1, s1) /\
     exists r2 st s2,
       real_stat sdk 1 "/mnt/f"%string s1 = (Ret (r2, st), s2) /\
       st_size st = 7).
Proof.
  destruct (truncate_updates_cached_size hdr (scripted script_stat77)
              (process {[5 := file5 0 0]} {[77 := 900]} {[900 := ino77 10 0]})
              (2 ^ 30 + 5) 5 (file5 0 0) (ino77 10 0) 7 1
              "/mnt/f"%string "f"%string 900 (ino77 10 0))
    as [(r1 & s1 & Hrun & _ & Hstat) (r1' & s1' & Hrun' & _ & Hstat')];
    [reflexivity | lia | reflexivity | reflexivity | reflexivity | reflexivity
    | reflexivity | lia | discriminate | reflexivity | intros; cbn; lia
    | intros; split; reflexivity | intros; split; reflexivity |].
  split.
  - exists r1, s1. split; [exact Hrun|exact Hstat].
  - exists r1', s1'. split; [exact Hrun'|exact Hstat'].
Defined.

(** ** The open-inode registry under concurrent opens *)

Lemma record_inode_info_lookup_spec (ino : Z) (s : state) :
  record_inode_info_lookup ino s =
  match open_inodes s !! ino with
  | Some p =>
      match heap s !! p with
      | Some ii =>
          (Ret (Some p), set_heap (<[p := set_fd_ref (fd_ref ii + 1) ii]>) s)
      | None => (Fault, s)
      end
  | None => (Ret None, s)
  end.
Proof.
  unfold record_inode_info_lookup. unfold_monad.
  destruct (open_inodes s !! ino) as [p|]; [|reflexivity].
  destruct (heap s !! p) as [ii|] eqn:E; [|reflexivity].
  cbn. rewrite E. reflexivity.
Qed.

Lemma record_inode_info_build_spec (h : header) (sdk : oracle) (ino file_type sz : Z) (s : state) :
  let s1 := set_log (fun l => l ++ [Ev (alloc_inode_info ino)]) s in
  let p := fresh (dom (heap s)) in
  (sdk bool (log s) (alloc_inode_info ino) = false ->
   record_inode_info_build h sdk ino file_type sz s = (Ret None, s1)) /\
  (sdk bool (log s) (alloc_inode_info ino) = true ->
   exists ii,
     record_inode_info_build h sdk ino file_type sz s
     = (Ret (Some p), set_heap (fun _ => <[p := ii]> (heap s)) s1) /\
     inode ii = ino /\ fd_ref ii = 1 /\ size ii = sz /\
     client_id ii = cfs_client_id s).
Proof.
  intros s1 p. unfold record_inode_info_build, new_inode_info. unfold_monad.
  split; intros Hok; rewrite Hok; [reflexivity|].
  cbn. fold p. rewrite !lookup_insert_eq. cbn. rewrite lookup_insert_eq.
  eexists. split.
  - unfold set_heap at 1 2. cbn. rewrite insert_insert_eq. reflexivity.
  - repeat match goal with
           | |- context [if ?c then _ else _] => destruct c
           end; cbn; repeat split; reflexivity.
Qed.

Lemma record_inode_info_insert_spec (sdk : oracle) (ino p : Z) (s : state) :
  let s1 := set_log (fun l => l ++ [Ev (free_inode_info p)]) s in
  (open_inodes s !! ino = None ->
   record_inode_info_insert sdk ino p s
   = (Ret p, set_open_inodes (<[ino := p]>) s)) /\
  (forall q ii, open_inodes s !! ino = Some q -> q <> p ->
   heap s !! q = Some ii ->
   record_inode_info_insert sdk ino p s
   = (Ret q, set_heap (fun _ => <[q := set_fd_ref (fd_ref ii + 1) ii]>
                                  (delete p (heap s))) s1)).
Proof.
  intros s1. unfold record_inode_info_insert, release_inode_info.
  unfold_monad. split.
  - intros ->. reflexivity.
  - intros q ii -> Hne Hq. cbn.
    rewrite !lookup_delete_ne by congruence. rewrite Hq. cbn.
    rewrite lookup_delete_ne by congruence. rewrite Hq. reflexivity.
Qed.

(** *** Lists of threads *)

Lemma returned_insert (p : Z) (ts : list thread) (i : nat) (t t' : thread) :
  ts !! i = Some t ->
  returned p (<[i := t']> ts) = returned p ts - returns p t + returns p t'.
Proof.
  revert i. induction ts as [|a ts IH]; intros [|i] H; simpl in *;
    try discriminate.
  - injection H as ->. lia.
  - rewrite (IH i H). lia.
Qed.

Lemma returned_zero (p : Z) (ts : list thread) :
  (forall i ino, ts !! i <> Some (Done ino (Some p))) -> returned p ts = 0.
Proof.
  induction ts as [|a ts IH]; intros H; cbn; [reflexivity|].
  rewrite IH by (intros i ino; apply (H (S i) ino)).
  destruct a as [| | |ino [q|]]; cbn; try reflexivity.
  destruct (Z.eqb_spec q p) as [->|]; [|reflexivity].
  exfalso. apply (H 0%nat ino). reflexivity.
Qed.

Lemma thread_insert_inv (ts : list thread) (i j : nat) (t t' u : thread) :
  ts !! i = Some t ->
  <[i := t']> ts !! j = Some u ->
  (j = i /\ t' = u) \/ (j <> i /\ ts !! j = Some u).
Proof.
  intros Hi H. apply list_lookup_insert_Some in H.
  destruct H as [(-> & -> & _)|(Hne & H)]; [left|right]; split; congruence.
Qed.

Lemma thread_insert_eq (ts : list thread) (i : nat) (t t' : thread) :
  ts !! i = Some t -> <[i := t']> ts !! i = Some t'.
Proof.
  intros H. apply list_lookup_insert_eq. apply lookup_lt_Some in H. exact H.
Qed.

Lemma thread_insert_ne (ts : list thread) (i j : nat) (t' : thread) :
  j <> i -> <[i := t']> ts !! j = ts !! j.
Proof. intros H. apply list_lookup_insert_ne. congruence. Qed.

(** *** The invariant is kept by every step *)

(** A step that changes neither the registry nor the heap, by a thread that
    neither holds nor returns an entry. *)
Lemma inv_idle (s0 s s' : state) (ts : list thread) (i : nat) (t t' : thread) :
  registry_inv s0 ts s ->
  ts !! i = Some t ->
  open_inodes s' = open_inodes s -> heap s' = heap s ->
  (forall p, returns p t = 0) -> (forall p, returns p t' = 0) ->
  (forall ino p, t <> Built ino p) -> (forall ino p, t' <> Built ino p) ->
  registry_inv s0 (<[i := t']> ts) s'.
Proof.
  intros [Hreg Hlive Hbuilt Hdone Hkept] Hi Ereg Eheap Ht Ht' Hb Hb'.
  constructor; rewrite ?Ereg, ?Eheap.
  - intros ino p Hp. destruct (Hreg ino p Hp) as (ii & Hii & Hino & Href).
    exists ii. rewrite (returned_insert p ts i t t' Hi), Ht, Ht'.
    split; [exact Hii|]. split; [exact Hino|]. lia.
  - intros p ii Hp. destruct (Hlive p ii Hp) as [H|[j Hj]]; [left; exact H|].
    right. exists j. rewrite thread_insert_ne; [exact Hj|].
    intros ->. rewrite Hi in Hj. injection Hj as ->. eapply Hb. reflexivity.
  - intros j ino p Hj.
    destruct (thread_insert_inv ts i j t t' _ Hi Hj) as [[-> ->]|[Hne Hj']].
    { exfalso. eapply Hb'. reflexivity. }
    destruct (Hbuilt j ino p Hj') as (H1 & H2 & H3 & H4).
    split; [exact H1|]. split; [exact H2|]. split; [exact H3|].
    intros j' ino' Hj2.
    destruct (thread_insert_inv ts i j' t t' _ Hi Hj2) as [[-> ->]|[Hne' Hj'']].
    { exfalso. eapply Hb'. reflexivity. }
    eapply H4. exact Hj''.
  - intros j ino p Hj.
    destruct (thread_insert_inv ts i j t t' _ Hi Hj) as [[-> ->]|[Hne Hj']].
    { specialize (Ht' p). cbn in Ht'. rewrite Z.eqb_refl in Ht'. lia. }
    eapply Hdone. exact Hj'.
  - exact Hkept.
Qed.

(** A built entry is registered nowhere, and no thread has returned it. *)
Lemma built_not_registered (s0 s : state) (ts : list thread) (i : nat)
    (ino p ino' : Z) :
  registry_inv s0 ts s ->
  ts !! i = Some (Built ino p) ->
  open_inodes s !! ino' <> Some p.
Proof.
  intros [Hreg _ Hbuilt _ _] Hi Hp.
  destruct (Hbuilt i ino p Hi) as ((ii & Hii & Hino & _) & Hnot & _).
  destruct (Hreg ino' p Hp) as (ii' & Hii' & Hino' & _).
  rewrite Hii in Hii'. injection Hii' as <-. congruence.
Qed.

Lemma built_not_returned (s0 s : state) (ts : list thread) (i : nat)
    (ino p : Z) :
  registry_inv s0 ts s ->
  ts !! i = Some (Built ino p) ->
  returned p ts = 0.
Proof.
  intros Hinv Hi. apply returned_zero. intros j ino' Hj.
  apply (built_not_registered s0 s ts i ino p ino' Hinv Hi).
  eapply inv_done; [exact Hinv|exact Hj].
Qed.

(** The first critical section found the entry [p] and took a reference. *)
Lemma inv_lookup_hit (s0 s s' : state) (ts : list thread) (i : nat)
    (ino file_type sz p : Z) (ii : inode_info_t) :
  registry_inv s0 ts s ->
  ts !! i = Some (Start ino file_type sz) ->
  open_inodes s !! ino = Some p -> heap s !! p = Some ii ->
  open_inodes s' = open_inodes s ->
  heap s' = <[p := set_fd_ref (fd_ref ii + 1) ii]> (heap s) ->
  registry_inv s0 (<[i := Done ino (Some p)]> ts) s'.
Proof.
  intros Hinv Hi Hp Hii Ereg Eheap.
  pose proof Hinv as [Hreg Hlive Hbuilt Hdone Hkept].
  constructor; rewrite ?Ereg, ?Eheap.
  - intros ino1 p1 Hp1.
    destruct (Hreg ino1 p1 Hp1) as (ii1 & Hii1 & Hino1 & Href).
    rewrite (returned_insert p1 ts i _ (Done ino (Some p)) Hi). cbn.
    destruct (Z.eqb_spec p p1) as [<-|Hne].
    + rewrite lookup_insert_eq. eexists. split; [reflexivity|].
      rewrite Hii in Hii1. injection Hii1 as <-. cbn.
      split; [exact Hino1|]. lia.
    + rewrite lookup_insert_ne by exact Hne. exists ii1.
      split; [exact Hii1|]. split; [exact Hino1|]. lia.
  - intros p1 ii1. destruct (Z.eq_dec p p1) as [<-|Hne].
    + rewrite lookup_insert_eq. intros [= <-]. cbn. left.
      destruct (Hreg ino p Hp) as (ii' & Hii' & Hino' & _).
      rewrite Hii in Hii'. injection Hii' as <-. rewrite Hino'. exact Hp.
    + rewrite lookup_insert_ne by exact Hne. intros Hp1.
      destruct (Hlive p1 ii1 Hp1) as [H|[j Hj]]; [left; exact H|].
      right. exists j. rewrite thread_insert_ne; [exact Hj|].
      intros ->. rewrite Hi in Hj. discriminate.
  - intros j ino1 p1 Hj.
    destruct (thread_insert_inv ts i j _ _ _ Hi Hj) as [[_ [=]]|[Hne Hj']].
    destruct (Hbuilt j ino1 p1 Hj') as (H1 & H2 & H3 & H4).
    assert (Hpp : p <> p1).
    { intros <-. eapply built_not_registered; [exact Hinv|exact Hj'|exact Hp]. }
    rewrite lookup_insert_ne by exact Hpp.
    split; [exact H1|]. split; [exact H2|]. split; [exact H3|].
    intros j' ino' Hj2.
    destruct (thread_insert_inv ts i j' _ _ _ Hi Hj2) as [[_ [=]]|[Hne' Hj'']].
    eapply H4. exact Hj''.
  - intros j ino1 p1 Hj.
    destruct (thread_insert_inv ts i j _ _ _ Hi Hj) as [[_ [= <- <-]]|[Hne Hj']].
    { exact Hp. }
    eapply Hdone. exact Hj'.
  - exact Hkept.
Qed.

(** A thread built the entry [p], which was not live before. *)
Lemma inv_build (s0 s s' : state) (ts : list thread) (i : nat)
    (ino file_type sz p : Z) (ii : inode_info_t) :
  registry_inv s0 ts s ->
  ts !! i = Some (Looked ino file_type sz) ->
  heap s !! p = None -> inode ii = ino -> fd_ref ii = 1 ->
  open_inodes s' = open_inodes s ->
  heap s' = <[p := ii]> (heap s) ->
  registry_inv s0 (<[i := Built ino p]> ts) s'.
Proof.
  intros Hinv Hi Hfresh Hino Href Ereg Eheap.
  pose proof Hinv as [Hreg Hlive Hbuilt Hdone Hkept].
  constructor; rewrite ?Ereg, ?Eheap.
  - intros ino1 p1 Hp1.
    destruct (Hreg ino1 p1 Hp1) as (ii1 & Hii1 & Hino1 & Href1).
    rewrite (returned_insert p1 ts i _ (Built ino p) Hi). cbn.
    rewrite lookup_insert_ne by congruence.
    exists ii1. split; [exact Hii1|]. split; [exact Hino1|]. lia.
  - intros p1 ii1. destruct (Z.eq_dec p p1) as [<-|Hne].
    + rewrite lookup_insert_eq. intros [= <-]. right. exists i.
      rewrite Hino. eapply thread_insert_eq. exact Hi.
    + rewrite lookup_insert_ne by exact Hne. intros Hp1.
      destruct (Hlive p1 ii1 Hp1) as [H|[j Hj]]; [left; exact H|].
      right. exists j. rewrite thread_insert_ne; [exact Hj|].
      intros ->. rewrite Hi in Hj. discriminate.
  - intros j ino1 p1 Hj.
    destruct (thread_insert_inv ts i j _ _ _ Hi Hj)
      as [[-> [= <- <-]]|[Hne Hj']].
    + rewrite lookup_insert_eq. split; [exists ii; auto|].
      split.
      { intros Hp. destruct (Hreg ino p Hp) as (? & ? & _). congruence. }
      split.
      { destruct (heap s0 !! p) as [ii0|] eqn:E0; [|reflexivity].
        destruct (Hreg _ _ (Hkept p ii0 E0)) as (? & ? & _). congruence. }
      intros j' ino' Hj2.
      destruct (thread_insert_inv ts i j' _ _ _ Hi Hj2) as [[-> _]|[Hne' Hj'']];
        [reflexivity|].
      destruct (Hbuilt j' ino' p Hj'') as ((? & ? & _) & _). congruence.
    + destruct (Hbuilt j ino1 p1 Hj') as (H1 & H2 & H3 & H4).
      assert (Hpp : p <> p1).
      { intros <-. destruct H1 as (? & ? & _). congruence. }
      rewrite lookup_insert_ne by exact Hpp.
      split; [exact H1|]. split; [exact H2|]. split; [exact H3|].
      intros j' ino' Hj2.
      destruct (thread_insert_inv ts i j' _ _ _ Hi Hj2)
        as [[_ [= _ E]]|[Hne' Hj'']]; [congruence|].
      eapply H4. exact Hj''.
  - intros j ino1 p1 Hj.
    destruct (thread_insert_inv ts i j _ _ _ Hi Hj) as [[_ [=]]|[Hne Hj']].
    eapply Hdone. exact Hj'.
  - exact Hkept.
Qed.

(** The second critical section found the inode still unregistered and
    registered the entry that the thread built. *)
Lemma inv_insert_new (s0 s s' : state) (ts : list thread) (i : nat)
    (ino p : Z) :
  registry_inv s0 ts s ->
  ts !! i = Some (Built ino p) ->
  open_inodes s !! ino = None ->
  open_inodes s' = <[ino := p]> (open_inodes s) ->
  heap s' = heap s ->
  registry_inv s0 (<[i := Done ino (Some p)]> ts) s'.
Proof.
  intros Hinv Hi Hnone Ereg Eheap.
  pose proof Hinv as [Hreg Hlive Hbuilt Hdone Hkept].
  destruct (Hbuilt i ino p Hi) as ((ii & Hii & Hino & Href) & _ & Hs0 & Huniq).
  constructor; rewrite ?Ereg, ?Eheap.
  - intros ino1 p1. destruct (Z.eq_dec ino ino1) as [<-|Hne].
    + rewrite lookup_insert_eq. intros [= <-]. exists ii.
      split; [exact Hii|]. split; [exact Hino|].
      rewrite Hs0, (returned_insert p ts i _ _ Hi).
      rewrite (built_not_returned s0 s ts i ino p Hinv Hi). cbn.
      rewrite Z.eqb_refl. lia.
    + rewrite lookup_insert_ne by exact Hne. intros Hp1.
      destruct (Hreg ino1 p1 Hp1) as (ii1 & Hii1 & Hino1 & Href1).
      exists ii1. split; [exact Hii1|]. split; [exact Hino1|].
      rewrite (returned_insert p1 ts i _ _ Hi). cbn.
      destruct (Z.eqb_spec p p1) as [<-|_]; [|lia].
      exfalso. eapply built_not_registered; [exact Hinv|exact Hi|exact Hp1].
  - intros p1 ii1 Hp1. destruct (Hlive p1 ii1 Hp1) as [H|[j Hj]].
    + left. rewrite lookup_insert_ne; [exact H|]. congruence.
    + destruct (Nat.eq_dec j i) as [->|Hne].
      * rewrite Hi in Hj. injection Hj as <- <-. left.
        apply lookup_insert_eq.
      * right. exists j. rewrite thread_insert_ne; [exact Hj|exact Hne].
  - intros j ino1 p1 Hj.
    destruct (thread_insert_inv ts i j _ _ _ Hi Hj) as [[_ [=]]|[Hne Hj']].
    destruct (Hbuilt j ino1 p1 Hj') as (H1 & H2 & H3 & H4).
    split; [exact H1|]. split.
    { destruct (Z.eq_dec ino ino1) as [<-|Hino1].
      - rewrite lookup_insert_eq. intros [= <-].
        apply Hne. symmetry. eapply H4. exact Hi.
      - rewrite lookup_insert_ne by exact Hino1. exact H2. }
    split; [exact H3|].
    intros j' ino' Hj2.
    destruct (thread_insert_inv ts i j' _ _ _ Hi Hj2) as [[_ [=]]|[Hne' Hj'']].
    eapply H4. exact Hj''.
  - intros j ino1 p1 Hj.
    destruct (thread_insert_inv ts i j _ _ _ Hi Hj)
      as [[_ [= <- <-]]|[Hne Hj']].
    { apply lookup_insert_eq. }
    pose proof (Hdone j ino1 p1 Hj') as Hd.
    rewrite lookup_insert_ne; [exact Hd|]. congruence.
  - intros p1 ii0 H0. pose proof (Hkept p1 ii0 H0) as Hk.
    rewrite lookup_insert_ne; [exact Hk|]. congruence.
Qed.

(** The second critical section found that another thread registered the
    entry [q] first: the entry [p] that this thread built is freed and [q]
    gets one more reference. *)
Lemma inv_insert_lost (s0 s s' : state) (ts : list thread) (i : nat)
    (ino p q : Z) (iq : inode_info_t) :
  registry_inv s0 ts s ->
  ts !! i = Some (Built ino p) ->
  open_inodes s !! ino = Some q -> heap s !! q = Some iq ->
  open_inodes s' = open_inodes s ->
  heap s' = <[q := set_fd_ref (fd_ref iq + 1) iq]> (delete p (heap s)) ->
  registry_inv s0 (<[i := Done ino (Some q)]> ts) s'.
Proof.
  intros Hinv Hi Hq Hiq Ereg Eheap.
  pose proof Hinv as [Hreg Hlive Hbuilt Hdone Hkept].
  destruct (Hbuilt i ino p Hi) as ((ii & Hii & Hino & Href) & Hnot & Hs0 & Huniq).
  assert (Hnr : forall ino', open_inodes s !! ino' <> Some p)
    by (intros ino'; eapply built_not_registered; [exact Hinv|exact Hi]).
  assert (Hqp : q <> p) by (intros ->; exact (Hnr _ Hq)).
  constructor; rewrite ?Ereg, ?Eheap.
  - intros ino1 p1 Hp1.
    destruct (Hreg ino1 p1 Hp1) as (ii1 & Hii1 & Hino1 & Href1).
    assert (Hp1p : p1 <> p) by (intros ->; exact (Hnr _ Hp1)).
    rewrite (returned_insert p1 ts i _ _ Hi). cbn.
    destruct (Z.eqb_spec q p1) as [<-|Hne].
    + rewrite lookup_insert_eq. eexists. split; [reflexivity|].
      rewrite Hiq in Hii1. injection Hii1 as <-. cbn.
      split; [exact Hino1|]. lia.
    + rewrite lookup_insert_ne by exact Hne.
      rewrite lookup_delete_ne by congruence.
      exists ii1. split; [exact Hii1|]. split; [exact Hino1|]. lia.
  - intros p1 ii1. destruct (Z.eq_dec q p1) as [<-|Hne].
    + rewrite lookup_insert_eq. intros [= <-]. cbn. left.
      destruct (Hreg ino q Hq) as (ii' & Hii' & Hino' & _).
      rewrite Hiq in Hii'. injection Hii' as <-. rewrite Hino'. exact Hq.
    + rewrite lookup_insert_ne by exact Hne.
      destruct (Z.eq_dec p p1) as [<-|Hne'].
      { rewrite lookup_delete_eq. discriminate. }
      rewrite lookup_delete_ne by exact Hne'. intros Hp1.
      destruct (Hlive p1 ii1 Hp1) as [H|[j Hj]]; [left; exact H|].
      right. exists j. rewrite thread_insert_ne; [exact Hj|].
      intros ->. rewrite Hi in Hj. congruence.
  - intros j ino1 p1 Hj.
    destruct (thread_insert_inv ts i j _ _ _ Hi Hj) as [[_ [=]]|[Hne Hj']].
    destruct (Hbuilt j ino1 p1 Hj') as (H1 & H2 & H3 & H4).
    assert (Hpp : p <> p1).
    { intros <-. apply Hne. symmetry. eapply H4. exact Hi. }
    assert (Hqq : q <> p1).
    { intros <-. eapply built_not_registered; [exact Hinv|exact Hj'|exact Hq]. }
    rewrite lookup_insert_ne by exact Hqq.
    rewrite lookup_delete_ne by exact Hpp.
    split; [exact H1|]. split; [exact H2|]. split; [exact H3|].
    intros j' ino' Hj2.
    destruct (thread_insert_inv ts i j' _ _ _ Hi Hj2) as [[_ [=]]|[Hne' Hj'']].
    eapply H4. exact Hj''.
  - intros j ino1 p1 Hj.
    destruct (thread_insert_inv ts i j _ _ _ Hi Hj)
      as [[_ [= <- <-]]|[Hne Hj']].
    { exact Hq. }
    eapply Hdone. exact Hj'.
  - exact Hkept.
Qed.

Lemma step_registry_inv (h : header) (sdk : oracle) (s0 s s' : state)
    (ts ts' : list thread) :
  registry_inv s0 ts s -> step h sdk (ts, s) (ts', s') ->
  registry_inv s0 ts' s'.
Proof.
  intros Hinv Hstep.
  inversion Hstep as [i t t' ts1 s1 s1' Hi Hnd Hrun]; subst.
  destruct t as [ino ft sz|ino ft sz|ino p|ino r]; cbn in Hrun;
    unfold mbind in Hrun.
  - rewrite record_inode_info_lookup_spec in Hrun.
    destruct (open_inodes s !! ino) as [p|] eqn:Hp.
    + destruct (inv_registered _ _ _ Hinv ino p Hp) as (ii & Hii & _).
      rewrite Hii in Hrun. injection Hrun as <- <-.
      eapply inv_lookup_hit; [exact Hinv|exact Hi|exact Hp|exact Hii| |];
        reflexivity.
    + injection Hrun as <- <-.
      eapply inv_idle; [exact Hinv|exact Hi| | | | | |];
        first [reflexivity | discriminate].
  - destruct (record_inode_info_build_spec h sdk ino ft sz s) as [Hfail Hok].
    destruct (sdk bool (log s) (alloc_inode_info ino)) eqn:Halloc.
    + destruct (Hok eq_refl) as (ii & Hb & Hino & Href & _).
      rewrite Hb in Hrun. injection Hrun as <- <-.
      eapply inv_build;
        [exact Hinv|exact Hi| |exact Hino|exact Href|reflexivity|reflexivity].
      apply not_elem_of_dom. apply is_fresh.
    + rewrite (Hfail eq_refl) in Hrun. injection Hrun as <- <-.
      eapply inv_idle; [exact Hinv|exact Hi| | | | | |];
        first [reflexivity | discriminate].
  - destruct (record_inode_info_insert_spec sdk ino p s) as [Hnew Hlost].
    destruct (open_inodes s !! ino) as [q|] eqn:Hq.
    + destruct (inv_registered _ _ _ Hinv ino q Hq) as (iq & Hiq & _).
      assert (Hqp : q <> p).
      { intros ->.
        eapply built_not_registered; [exact Hinv|exact Hi|exact Hq]. }
      rewrite (Hlost q iq eq_refl Hqp Hiq) in Hrun. injection Hrun as <- <-.
      eapply inv_insert_lost;
        [exact Hinv|exact Hi|exact Hq|exact Hiq|reflexivity|reflexivity].
    + rewrite (Hnew eq_refl) in Hrun. injection Hrun as <- <-.
      eapply inv_insert_new;
        [exact Hinv|exact Hi|exact Hq|reflexivity|reflexivity].
  - discriminate.
Qed.

Lemma steps_registry_inv (h : header) (sdk : oracle) (s0 : state)
    (c c' : list thread * state) :
  rtc (step h sdk) c c' ->
  registry_inv s0 (fst c) (snd c) -> registry_inv s0 (fst c') (snd c').
Proof.
  induction 1 as [|[ts s] [ts1 s1] c' Hstep _ IH]; intros Hinv; [exact Hinv|].
  apply IH. eapply step_registry_inv; [exact Hinv|exact Hstep].
Qed.

Lemma registry_inv_init (s0 : state) (ts0 : list thread) :
  registry_ok s0 ->
  Forall (fun t => is_start t = true) ts0 ->
  registry_inv s0 ts0 s0.
Proof.
  intros [Hreg Hlive] Hstart.
  assert (Hnone : forall i t, ts0 !! i = Some t -> is_start t = true).
  { intros i t Hi. eapply (Forall_lookup_1 _ _ _ _ Hstart Hi). }
  constructor.
  - intros ino p Hp. destruct (Hreg ino p Hp) as (ii & Hii & Hino).
    exists ii. rewrite Hii. split; [reflexivity|]. split; [exact Hino|].
    rewrite returned_zero; [lia|].
    intros i ino' Hi. apply Hnone in Hi. discriminate.
  - intros p ii Hp. left. eapply Hlive. exact Hp.
  - intros i ino p Hi. apply Hnone in Hi. discriminate.
  - intros i ino p Hi. apply Hnone in Hi. discriminate.
  - exact Hlive.
Qed.

(** Under the invariant no step of [record_inode_info] dereferences a pointer
    that is not live: every thread that has not returned can take its step. *)
Lemma step_progress (h : header) (sdk : oracle) (s0 s : state)
    (ts : list thread) (i : nat) (t : thread) :
  registry_inv s0 ts s ->
  ts !! i = Some t -> is_done t = false ->
  exists t' s', record_inode_info_step h sdk t s = (Ret t', s').
Proof.
  intros Hinv Hi Hnd.
  destruct t as [ino ft sz|ino ft sz|ino p|ino r]; cbn; unfold mbind.
  - rewrite record_inode_info_lookup_spec.
    destruct (open_inodes s !! ino) as [p|] eqn:Hp.
    + destruct (inv_registered _ _ _ Hinv ino p Hp) as (ii & Hii & _).
      rewrite Hii. eexists _, _. reflexivity.
    + eexists _, _. reflexivity.
  - destruct (record_inode_info_build_spec h sdk ino ft sz s) as [Hfail Hok].
    destruct (sdk bool (log s) (alloc_inode_info ino)) eqn:Halloc.
    + destruct (Hok eq_refl) as (ii & Hb & _). rewrite Hb.
      eexists _, _. reflexivity.
    + rewrite (Hfail eq_refl). eexists _, _. reflexivity.
  - destruct (record_inode_info_insert_spec sdk ino p s) as [Hnew Hlost].
    destruct (open_inodes s !! ino) as [q|] eqn:Hq.
    + destruct (inv_registered _ _ _ Hinv ino q Hq) as (iq & Hiq & _).
      assert (Hqp : q <> p).
      { intros ->.
        eapply built_not_registered; [exact Hinv|exact Hi|exact Hq]. }
      rewrite (Hlost q iq eq_refl Hqp Hiq). eexists _, _. reflexivity.
    + rewrite (Hnew eq_refl). eexists _, _. reflexivity.
  - discriminate.
Qed.

(** A schedule that runs is a sequence of steps. *)
Lemma run_schedule_steps (h : header) (sdk : oracle) (sched : list nat)
    (ts : list thread) (s : state) (c : list thread * state) :
  run_schedule h sdk sched ts s = Some c -> rtc (step h sdk) (ts, s) c.
Proof.
  revert ts s. induction sched as [|i sched IH]; intros ts s; cbn.
  - intros [= <-]. apply rtc_refl.
  - destruct (ts !! i) as [t|] eqn:Hi; [|discriminate].
    destruct (is_done t) eqn:Hnd; [discriminate|].
    destruct (record_inode_info_step h sdk t s) as [[t'| |] s'] eqn:Hrun;
      try discriminate.
    intros Hrest. eapply rtc_l; [|apply IH; exact Hrest].
    eapply step_at; [exact Hi|exact Hnd|exact Hrun].
Qed.

(** The sequential function is the thread run on its own through its three
    steps. *)
Lemma record_inode_info_run_thread (h : header) (sdk : oracle)
    (ino file_type sz : Z) (s : state) :
  record_inode_info h sdk ino file_type sz s =
  (t <- run_thread h sdk 3 (Start ino file_type sz) ;;
   match t with
   | Done _ r => mreturn r
   | _ => fault
   end) s.
Proof.
  unfold record_inode_info. cbn [run_thread record_inode_info_step].
  unfold mbind, mreturn, fault.
  destruct (record_inode_info_lookup ino s) as [[[p|]| |] s1]; try reflexivity.
  cbn [record_inode_info_step]. unfold mbind, mreturn.
  destruct (record_inode_info_build h sdk ino file_type sz s1)
    as [[[p|]| |] s2]; try reflexivity.
  cbn [record_inode_info_step]. unfold mbind, mreturn.
  destruct (record_inode_info_insert sdk ino p s2) as [[q| |] s3];
    reflexivity.
Qed.

(** C4.  Threads that run [record_inode_info] concurrently, started on a
    state whose registry is in order, interleaved in any way at the
    boundaries of the two critical sections.  At every point reached:
    - every registered entry is a live object carrying the inode number it is
      registered under, so two registered entries never carry the same inode
      number; every other live object is an entry that one thread has built
      and not yet offered, and it is not reachable through the registry;
    - the [fd_ref] of a registered entry is what it was at the start plus the
      number of threads that returned it, and threads that asked for the same
      inode number and returned got the same entry;
    - a thread that holds an entry [p] it built, on entering the second
      critical section, looks the inode up again: if an entry [q] is
      registered by now it frees [p], adds one to the [fd_ref] of [q] and
      returns [q], leaving the registry as it is; otherwise it registers
      [p];
    - every thread that has not returned can take its next step;
    - once all threads have returned, the live objects are exactly the
      registered entries. *)
Theorem registry_one_entry_per_inode (h : header) (sdk : oracle)
    (s0 s : state) (ts0 ts : list thread) :
  registry_ok s0 ->
  Forall (fun t => is_start t = true) ts0 ->
  rtc (step h sdk) (ts0, s0) (ts, s) ->
  registry_inv s0 ts s /\
  (forall ino1 ino2 p1 p2 i1 i2,
     open_inodes s !! ino1 = Some p1 -> open_inodes s !! ino2 = Some p2 ->
     heap s !! p1 = Some i1 -> heap s !! p2 = Some i2 ->
     inode i1 = inode i2 -> p1 = p2) /\
  (forall i j ino p q,
     ts !! i = Some (Done ino (Some p)) ->
     ts !! j = Some (Done ino (Some q)) -> p = q) /\
  (forall i ino p,
     ts !! i = Some (Built ino p) ->
     match open_inodes s !! ino with
     | Some q =>
         exists iq s',
           heap s !! q = Some iq /\
           record_inode_info_insert sdk ino p s = (Ret q, s') /\
           open_inodes s' = open_inodes s /\
           heap s' = <[q := set_fd_ref (fd_ref iq + 1) iq]>
                       (delete p (heap s)) /\
           log s' = log s ++ [Ev (free_inode_info p)]
     | None =>
         exists s',
           record_inode_info_insert sdk ino p s = (Ret p, s') /\
           open_inodes s' = <[ino := p]> (open_inodes s) /\
           heap s' = heap s
     end) /\
  (forall i t,
     ts !! i = Some t -> is_done t = false ->
     exists c, step h sdk (ts, s) c) /\
  (Forall (fun t => is_done t = true) ts -> registry_ok s).
Proof.
  intros Hok Hstart Hsteps.
  assert (Hinv : registry_inv s0 ts s).
  { apply (steps_registry_inv h sdk s0 _ _ Hsteps).
    apply registry_inv_init; [exact Hok|exact Hstart]. }
  split; [exact Hinv|].
  pose proof Hinv as [Hreg Hlive Hbuilt Hdone Hkept].
  split.
  { intros ino1 ino2 p1 p2 i1 i2 H1 H2 L1 L2 E.
    destruct (Hreg ino1 p1 H1) as (ii1 & Hii1 & Hino1 & _).
    destruct (Hreg ino2 p2 H2) as (ii2 & Hii2 & Hino2 & _).
    assert (ino1 = ino2) by congruence. subst ino2. congruence. }
  split.
  { intros i j ino p q Hi Hj.
    pose proof (Hdone i ino p Hi). pose proof (Hdone j ino q Hj). congruence. }
  split.
  { intros i ino p Hi. destruct (record_inode_info_insert_spec sdk ino p s) as [Hnew Hlost].
    destruct (open_inodes s !! ino) as [q|] eqn:Hq.
    - destruct (Hreg ino q Hq) as (iq & Hiq & _).
      assert (Hqp : q <> p).
      { intros ->.
        eapply built_not_registered; [exact Hinv|exact Hi|exact Hq]. }
      exists iq. eexists. split; [exact Hiq|].
      split; [exact (Hlost q iq eq_refl Hqp Hiq)|].
      split; [reflexivity|]. split; reflexivity.
    - eexists. split; [exact (Hnew eq_refl)|]. split; reflexivity. }
  split.
  { intros i t Hi Hnd.
    destruct (step_progress h sdk s0 s ts i t Hinv Hi Hnd) as (t' & s' & Hrun).
    eexists. eapply step_at; [exact Hi|exact Hnd|exact Hrun]. }
  intros Hall. split.
  - intros ino p Hp. destruct (Hreg ino p Hp) as (ii & Hii & Hino & _).
    exists ii. split; [exact Hii|exact Hino].
  - intros p ii Hp. destruct (Hlive p ii Hp) as [H|[j Hj]]; [exact H|].
    pose proof (Forall_lookup_1 _ _ _ _ Hall Hj) as Hd. discriminate.
Qed.

Lemma registry_one_entry_per_inode_witness :
  let s0 := process ∅ ∅ ∅ in
  let ts0 := [Start 77 0 0; Start 77 0 0] in
  let ts := [Done 77 (Some 1); Done 77 (Some 1)] in
  exists s,
    run_schedule hdr quiet [0; 1; 0; 1; 1; 0]%nat ts0 s0 = Some (ts, s) /\
    map_to_list (open_inodes s) = [(77, 1)] /\
    map_to_list (heap s)
      = [(1, {| inode := 77; size := 0; cache_flag := 0; fd_ref := 2;
                client_id := 1; c := no_page_cache |})] /\
    log s = [Ev (alloc_inode_info 77); Ev (alloc_inode_info 77);
             Ev (free_inode_info 0)] /\
    registry_inv s0 ts s /\
    registry_ok s.
Proof.
  intros s0 ts0 ts.
  assert (Hok : registry_ok s0).
  { split; [intros ino p H|intros p ii H]; cbn in H;
      rewrite lookup_empty in H; discriminate. }
  assert (Hstart : Forall (fun t => is_start t = true) ts0).
  { repeat constructor. }
  eexists. split; [vm_compute; reflexivity|].
  split; [vm_compute; reflexivity|].
  split; [vm_compute; reflexivity|].
  split; [vm_compute; reflexivity|].
  match goal with
  | |- registry_inv _ _ ?s /\ _ =>
      assert (Hrun : run_schedule hdr quiet [0; 1; 0; 1; 1; 0]%nat ts0 s0
                     = Some (ts, s)) by (vm_compute; reflexivity);
      destruct (registry_one_entry_per_inode hdr quiet s0 s ts0 ts Hok Hstart
                  (run_schedule_steps hdr quiet _ _ _ _ Hrun))
        as (Hinv & _ & _ & _ & _ & Hend)
  end.
  split; [exact Hinv|]. apply Hend. repeat constructor.
Defined.

(** ** Descriptors outside the mount *)



(** ** lseek *)



(** ** The cursor *)

Section IgnoresFiles.

Context (g : gmap Z file_t -> gmap Z file_t).

Lemma ignores_files_ret {A} (a : A) : ignores_files g (mreturn a).
Proof. intros s. reflexivity. Qed.

Lemma ignores_files_bind {A B} (m : M A) (k : A -> M B) :
  ignores_files g m -> (forall a, ignores_files g (k a)) ->
  ignores_files g (mbind m k).
Proof.
  intros Hm Hk s. unfold mbind. rewrite (Hm s).
  destruct (m s) as [[a| |] s1]; [apply Hk|reflexivity|reflexivity].
Qed.

Lemma ignores_files_get {A} (k : state -> M A) :
  (forall s, k (set_open_files g s) = k s) ->
  (forall s, ignores_files g (k s)) ->
  ignores_files g (mbind get k).
Proof. intros Hk Hc s. unfold mbind, get. rewrite Hk. apply Hc. Qed.

Lemma ignores_files_call (sdk : oracle) {T} (r : request T) :
  ignores_files g (call sdk r).
Proof. intros s. reflexivity. Qed.

Lemma ignores_files_load (p : Z) : ignores_files g (load p).
Proof. intros s. unfold load. cbn. destruct (heap s !! p); reflexivity. Qed.

Lemma ignores_files_store (p : Z) (ii : inode_info_t) :
  ignores_files g (store p ii).
Proof. intros s. unfold store. cbn. destruct (heap s !! p); reflexivity. Qed.

Lemma ignores_files_errno (e : Z) : ignores_files g (modify (set_errno e)).
Proof. intros s. reflexivity. Qed.

Lemma ignores_files_exit {A} (code : Z) : ignores_files g (@exit A code).
Proof. intros s. reflexivity. Qed.

Lemma ignores_files_fault {A} : ignores_files g (@fault A).
Proof. intros s. reflexivity. Qed.

End IgnoresFiles.

Ltac ignores_files :=
  repeat match goal with
    | |- ignores_files _ (mreturn _) => apply ignores_files_ret
    | |- ignores_files _ (call _ _) => apply ignores_files_call
    | |- ignores_files _ (load _) => apply ignores_files_load
    | |- ignores_files _ (store _ _) => apply ignores_files_store
    | |- ignores_files _ (modify (set_errno _)) => apply ignores_files_errno
    | |- ignores_files _ (exit _) => apply ignores_files_exit
    | |- ignores_files _ fault => apply ignores_files_fault
    | |- ignores_files _ (mbind get _) =>
        apply ignores_files_get; [reflexivity|intros ?]
    | |- ignores_files _ (mbind _ _) => apply ignores_files_bind; [|intros ?]
    | |- ignores_files _ (if ?c then _ else _) => destruct c
    | |- ignores_files _ (when ?c _) => unfold when
    | |- ignores_files _ (match ?x with Some _ => _ | None => _ end) =>
        destruct x
    | |- ignores_files _ (let _ := _ in _) => cbv zeta
    end.




Lemma keeps_files_ret {A} (a : A) : keeps_files (mreturn a).
Proof. intros s. split; reflexivity. Qed.

Lemma keeps_files_bind {A B} (m : M A) (k : A -> M B) :
  keeps_files m -> (forall a, keeps_files (k a)) -> keeps_files (mbind m k).
Proof.
  intros Hm Hk s. unfold mbind. specialize (Hm s).
  destruct (m s) as [[a| |] s1]; [|exact Hm|exact Hm].
  cbn in Hm. destruct Hm as [<- <-]. apply Hk.
Qed.

Lemma keeps_files_get : keeps_files get.
Proof. intros s. split; reflexivity. Qed.

Lemma keeps_files_call (sdk : oracle) {T} (r : request T) :
  keeps_files (call sdk r).
Proof. intros s. split; reflexivity. Qed.

Lemma keeps_files_load (p : Z) : keeps_files (load p).
Proof. intros s. unfold load. destruct (heap s !! p); split; reflexivity. Qed.

Lemma keeps_files_store (p : Z) (ii : inode_info_t) : keeps_files (store p ii).
Proof. intros s. unfold store. destruct (heap s !! p); split; reflexivity. Qed.

Lemma keeps_files_errno (e : Z) : keeps_files (modify (set_errno e)).
Proof. intros s. split; reflexivity. Qed.

Lemma keeps_files_exit {A} (code : Z) : keeps_files (@exit A code).
Proof. intros s. split; reflexivity. Qed.

Lemma keeps_files_fault {A} : keeps_files (@fault A).
Proof. intros s. split; reflexivity. Qed.

Ltac keeps_files :=
  repeat match goal with
    | |- keeps_files (mreturn _) => apply keeps_files_ret
    | |- keeps_files get => apply keeps_files_get
    | |- keeps_files (call _ _) => apply keeps_files_call
    | |- keeps_files (load _) => apply keeps_files_load
    | |- keeps_files (store _ _) => apply keeps_files_store
    | |- keeps_files (modify (set_errno _)) => apply keeps_files_errno
    | |- keeps_files (exit _) => apply keeps_files_exit
    | |- keeps_files fault => apply keeps_files_fault
    | |- keeps_files (mbind _ _) => apply keeps_files_bind; [|intros ?]
    | |- keeps_files (if ?c then _ else _) => destruct c
    | |- keeps_files (when ?c _) => unfold when
    | |- keeps_files (match ?x with Some _ => _ | None => _ end) =>
        destruct x
    | |- keeps_files (match ?x with (_, _) => _ end) => destruct x
    | |- keeps_files (let _ := _ in _) => cbv zeta
    end.

Lemma pread_sock_loop_keeps (sdk : oracle) (n : nat) :
  forall (req : list cfs_read_req_t) (buf : list Z) (read : Z),
    keeps_files (pread_sock_loop sdk n req buf read).
Proof.
  induction n as [|n IH]; intros req buf read; cbn [pread_sock_loop].
  - keeps_files.
  - destruct req as [|r req]; keeps_files; apply IH.
Qed.

Lemma read_through_cache_keeps (h : header) (sdk : oracle) (f : file_t)
    (fd : Z) (buf : list Z) (count offset : Z) :
  keeps_files (read_through_cache h sdk f fd buf count offset).
Proof.
  unfold read_through_cache, update_inode_size, cfs_errno_ssize_t, cfs_errno,
    cfs_pread_sock.
  keeps_files. apply pread_sock_loop_keeps.
Qed.

Lemma real_pread_keeps (h : header) (sdk : oracle) (fd : Z) (buf : list Z)
    (count offset : Z) :
  keeps_files (real_pread h sdk fd buf count offset).
Proof.
  unfold real_pread, real_pread_cfs, get_cfs_fd, get_open_file, read_check.
  keeps_files. apply read_through_cache_keeps.
Qed.

Lemma real_pwrite_keeps (h : header) (sdk : oracle) (fd : Z) (buf : list Z)
    (count offset : Z) :
  keeps_files (real_pwrite h sdk fd buf count offset).
Proof.
  unfold real_pwrite, real_pwrite_cfs, get_cfs_fd, get_open_file,
    update_inode_size, cfs_errno_ssize_t, cfs_errno.
  keeps_files.
Qed.

(** X3.  [pread] and [pwrite] never move a cursor: whatever the descriptor, the
    arguments and the answers of the collaborators, they leave the open-file
    table and the dup-alias table as they found them. *)
Theorem positional_io_keeps_cursors (h : header) (sdk : oracle) (s : state)
    (fd : Z) (buf : list Z) (count offset : Z) :
  let rd := real_pread h sdk fd buf count offset s in
  let wr := real_pwrite h sdk fd buf count offset s in
  (open_files (snd rd) = open_files s /\ dup_fds (snd rd) = dup_fds s) /\
  (open_files (snd wr) = open_files s /\ dup_fds (snd wr) = dup_fds s).
Proof.
  split; [apply real_pread_keeps|apply real_pwrite_keeps].
Qed.






(** ** Error paths of truncate, ftruncate and stat *)

(** X6.  [real_ftruncate] on a tagged descriptor.  If the replica refuses the
    truncation, its result is returned and nothing else happens.  Without a
    replica, a descriptor that is not open gives -1 without any call; for an
    open one the cached size is set to the new length before the backend is
    asked, so when the backend refuses, -1 is returned, [errno] is set, and
    the cached size is the new length all the same. *)
Theorem ftruncate_error_paths (h : header) (sdk : oracle) (s : state)
    (fd k length : Z) :
  g_hook s = true -> 0 <= fd -> fd_in_cfs h fd = true ->
  get_cfs_fd h fd s = (Ret k, s) ->
  (replicate_on s = true ->
   sdk Z (log s) (libc_ftruncate k length) < 0 ->
   real_ftruncate h sdk fd length s
   = (Ret (sdk Z (log s) (libc_ftruncate k length)),
      with_log [Ev (libc_ftruncate k length)] s)) /\
  (replicate_on s = false -> open_files s !! k = None ->
   real_ftruncate h sdk fd length s = (Ret (-1), s)) /\
  (replicate_on s = false ->
   forall f ii,
     open_files s !! k = Some f -> heap s !! inode_info f = Some ii ->
     let r := sdk Z (log s) (cfs_ftruncate (cfs_client_id s) k length) in
     r < 0 ->
     real_ftruncate h sdk fd length s
     = (Ret (-1),
        set_errno (- r)
          (with_log [Ev (cfs_ftruncate (cfs_client_id s) k length)]
             (set_heap (<[inode_info f := set_size (u64 length) ii]>) s)))).
Proof.
  intros Hhook Hfd Hcfs Hres.
  destruct (get_cfs_fd_inv _ _ _ _ _ Hres) as [_ Hk].
  assert (Hneg : (fd <? 0) = false) by (apply Z.ltb_ge; exact Hfd).
  unfold real_ftruncate, get_cfs_fd, get_open_file, cfs_errno. unfold_monad.
  rewrite Hneg, Hhook, Hcfs. cbn [andb].
  destruct (dup_fds s !! fd); subst k; (split; [|split]);
    intros Hrep; rewrite Hrep; cbn.
  1, 4: intros Hfail; apply Z.ltb_lt in Hfail; rewrite Hfail; reflexivity.
  1, 3: intros Hnone; rewrite Hnone; reflexivity.
  all: intros f ii Hf Hii Hfail; rewrite Hf; cbn; rewrite Hii; cbn;
       rewrite Hii; cbn; apply Z.ltb_lt in Hfail; rewrite Hfail; reflexivity.
Qed.

Lemma ftruncate_error_paths_witness :
  let s := process {[5 := file5 0 0]} {[77 := 900]} {[900 := ino77 10 0]} in
  let sdk := scripted (fun _ => reply (-5)) in
  real_ftruncate hdr sdk (2 ^ 30 + 5) 3 s
  = (Ret (-1),
     set_errno 5
       (with_log [Ev (cfs_ftruncate 1 5 3)]
          (set_heap (<[900 := set_size 3 (ino77 10 0)]>) s))).
Proof.
  intros s sdk.
  destruct (ftruncate_error_paths hdr sdk s (2 ^ 30 + 5) 5 3)
    as (_ & _ & H);
    [reflexivity | lia | reflexivity | reflexivity |].
  exact (H eq_refl (file5 0 0) (ino77 10 0) eq_refl eq_refl ltac:(by_compute)).
Defined.

(** X7.  [real_truncate] on a path inside the mount with the hook on.  If the
    replica refuses the truncation, its result is returned and the backend
    is not asked.  Without a replica, when the backend refuses, -1 is
    returned and [errno] is set, no stat is made and no cached size
    changes.  A path outside the mount goes to libc. *)
Theorem truncate_error_paths (sdk : oracle) (s : state)
    (pathname : string) (length : Z) :
  let s0 := with_log [Ev (get_cfs_path pathname)] s in
  (forall path,
     g_hook s = true ->
     sdk _ (log s) (get_cfs_path pathname) = Some path ->
     let local := libc_truncate (cat_path (replicate_path s) path) length in
     let remote := cfs_truncate (cfs_client_id s) path length in
     (replicate_on s = true -> sdk Z (log s0) local < 0 ->
      real_truncate sdk pathname length s
      = (Ret (sdk Z (log s0) local), with_log [Ev local] s0)) /\
     (replicate_on s = false -> sdk Z (log s0) remote < 0 ->
      real_truncate sdk pathname length s
      = (Ret (-1),
         set_errno (- sdk Z (log s0) remote) (with_log [Ev remote] s0)))) /\
  (sdk _ (log s) (get_cfs_path pathname) = None ->
   real_truncate sdk pathname length s
   = (Ret (sdk Z (log s0) (libc_truncate pathname length)),
      with_log [Ev (libc_truncate pathname length)] s0)).
Proof.
  intros s0. unfold real_truncate, cfs_errno, get_open_inode. unfold_monad.
  split.
  - intros path Hhook Hpath. rewrite Hpath. cbn. rewrite Hhook.
    change (replicate_on (set_log _ s)) with (replicate_on s).
    split; intros Hrep Hfail; rewrite Hrep; apply Z.ltb_lt in Hfail; cbn;
      rewrite Hfail; reflexivity.
  - intros ->. reflexivity.
Qed.

Lemma truncate_error_paths_witness :
  let s := process {[5 := file5 0 0]} {[77 := 900]} {[900 := ino77 10 0]} in
  let sdk := scripted (fun n => if (n =? 1)%nat then reply (-5) else reply 0) in
  real_truncate sdk "/mnt/f"%string 3 s
  = (Ret (-1),
     set_errno 5
       (with_log [Ev (get_cfs_path "/mnt/f"%string);
                  Ev (cfs_truncate 1 "f"%string 3)] s)).
Proof.
  intros s sdk.
  destruct (truncate_error_paths sdk s "/mnt/f"%string 3) as [H _].
  destruct (H "f"%string eq_refl eq_refl) as [_ H2].
  exact (H2 eq_refl ltac:(by_compute)).
Defined.

(** X8.  [real_fstat] and [real_stat] on a file of the mount, without a replica.
    When the backend's stat fails, -1 is returned, [errno] is set and the
    buffer is what the backend left in it; the cached sizes are not
    consulted.  When it succeeds on an inode that is not open, the buffer is
    returned as the backend filled it. *)
Theorem stat_without_open_inode (h : header) (sdk : oracle) (s : state)
    (ver fd k : Z) (pathname path : string) :
  g_hook s = true -> replicate_on s = false ->
  (fd_in_cfs h fd = true -> get_cfs_fd h fd s = (Ret k, s) ->
   let call := cfs_fstat (cfs_client_id s) k in
   let x := sdk _ (log s) call in
   (fst x < 0 ->
    real_fstat h sdk ver fd s
    = (Ret (-1, snd x), set_errno (- fst x) (with_log [Ev call] s))) /\
   (fst x = 0 -> open_inodes s !! st_ino (snd x) = None ->
    real_fstat h sdk ver fd s = (Ret (0, snd x), with_log [Ev call] s))) /\
  (sdk _ (log s) (get_cfs_path pathname) = Some path ->
   let s0 := with_log [Ev (get_cfs_path pathname)] s in
   let call := cfs_stat (cfs_client_id s) path in
   let x := sdk _ (log s0) call in
   (fst x < 0 ->
    real_stat sdk ver pathname s
    = (Ret (-1, snd x), set_errno (- fst x) (with_log [Ev call] s0))) /\
   (fst x = 0 -> open_inodes s !! st_ino (snd x) = None ->
    real_stat sdk ver pathname s = (Ret (0, snd x), with_log [Ev call] s0))).
Proof.
  intros Hhook Hrep. split.
  - intros Hcfs Hres call x.
    destruct (get_cfs_fd_inv _ _ _ _ _ Hres) as [_ Hk].
    unfold real_fstat, override_size, get_cfs_fd, get_open_inode, cfs_errno.
    unfold_monad. rewrite Hhook, Hcfs. cbn [andb].
    destruct (dup_fds s !! fd); subst k; cbn; fold call; fold x; rewrite Hrep.
    all: split; [intros Hfail; apply Z.ltb_lt in Hfail; rewrite Hfail; cbn;
                 reflexivity
                |intros Hok Hnone; rewrite Hok; cbn; rewrite Hnone;
                 reflexivity].
  - intros Hpath s0 call x.
    unfold real_stat, override_size, get_open_inode, cfs_errno.
    unfold_monad. rewrite Hpath. cbn. rewrite Hhook.
    rewrite ?replicate_on_set_log, Hrep. cbn.
    split; [intros Hfail; apply Z.ltb_lt in Hfail
           |intros Hok Hnone];
      unfold x, call, s0, with_log, set_log in *; cbn in *.
    + rewrite Hfail. reflexivity.
    + rewrite Hok. cbn. rewrite Hnone. reflexivity.
Qed.

Lemma stat_without_open_inode_witness :
  let s := process ∅ ∅ ∅ in
  let sdk := scripted (fun n => if (n =? 1)%nat then reply (-2) else reply 0) in
  real_stat sdk 1 "/mnt/f"%string s
  = (Ret (-1, {| st_ino := 0; st_size := 0; st_mode := 0 |}),
     set_errno 2
       (with_log [Ev (get_cfs_path "/mnt/f"%string);
                  Ev (cfs_stat 1 "f"%string)] s)).
Proof.
  intros s sdk.
  destruct (stat_without_open_inode hdr sdk s 1 0 0 "/mnt/f"%string
              "f"%string eq_refl eq_refl) as [_ H].
  destruct (H eq_refl) as [H1 _].
  exact (H1 ltac:(by_compute)).
Defined.
